(** * FlutterBridgeSDK: request correlation, dispatch and the event registry

    A shallow embedding of [src/index.ts] (class [FlutterBridgeSDK]) and of the
    declarations of [src/type.ts].  The two JavaScript [Map]s of the class are
    finite maps, promises and timers are handles into explicit tables, and
    everything the class does to the outside (settling a request promise,
    calling [postMessage] of a channel object, writing to the console) is
    recorded in the state, so that the properties of the bridge can be stated
    over what an observer of the page would see.

    Two conventions. A call of a method is followed to its end, the
    continuations after its [await]s included, before the next call is looked
    at. A registered callback is a function of the data it receives: it
    fulfils, rejects or never settles, and does not call back into the
    instance. *)

From stdpp Require Import gmap strings list pretty.

Local Open Scope Z_scope.
Local Open Scope string_scope.
Local Set Warnings "-register-all".

(** ** JavaScript values *)

(** Values that travel through the bridge: what [JSON.parse] can build, plus
    [undefined] for a member that is not there.  Numbers are integers, as the
    wire format has them for [code]. *)
Inductive jsval : Type :=
  | JUndefined
  | JNull
  | JBool (b : bool)
  | JNum (n : Z)
  | JStr (s : string)
  | JArr (items : list jsval)
  | JObj (members : list (string * jsval)).

(** ToBoolean. *)
Definition truthy (v : jsval) : bool :=
  match v with
  | JUndefined | JNull => false
  | JBool b => b
  | JNum n => negb (n =? 0)%Z
  | JStr s => negb (String.eqb s EmptyString)
  | JArr _ | JObj _ => true
  end.

(** [typeof v === "string"]. *)
Definition is_string (v : jsval) : bool :=
  match v with JStr _ => true | _ => false end.

(** Whether [`${v}`] gives a string. On a value built by [JSON.parse] the
    conversion throws a [TypeError] in one case: an object with a member
    [toString] of its own, which is never a function, so that neither it nor
    the inherited [valueOf] yields a primitive. An array is joined, so it
    converts when its items do ([null] items print as nothing). *)
Fixpoint printable (v : jsval) : bool :=
  match v with
  | JObj members => negb (existsb (fun m => String.eqb m.1 "toString") members)
  | JArr items => forallb printable items
  | _ => true
  end.

(** A member declared with a primitive type in [type.ts] ([code?: number],
    [errorMessage?: string]): not there, [null], or a value of that type. *)
Inductive field (A : Type) : Type :=
  | Undefined
  | Null
  | Value (a : A).
Arguments Undefined {A}.
Arguments Null {A}.
Arguments Value {A} a.

(** [x == null] and [x != null]. *)
Definition nullish {A} (x : field A) : bool :=
  match x with Value _ => false | _ => true end.

(** ** [type.ts] *)

(** [interface Payload]. The members [action] and [id] are kept as arbitrary
    values because [dispatch] tests their type and truthiness at run time. *)
Record Payload : Type := mkPayload {
  action : jsval;
  id : jsval;
  data : jsval;
  code : field Z;
  errorMessage : field string
}.

(** What [JSON.parse] returned: an object, read as a [Payload], or one of
    the other values of JSON ([null], a boolean, a number, a string, an
    array), none of which has a member [id] or [action]. *)
Inductive parsed : Type :=
  | PNull
  | PBool (b : bool)
  | PNum (n : Z)
  | PStr (s : string)
  | PArr (items : list jsval)
  | Envelope (p : Payload).

(** [interface PendingPromise]: the [resolve] and [reject] functions of the
    promise created by [postMessage], named by the handle of that promise,
    and the identifier of its timeout timer. *)
Record PendingPromise : Type := mkPending {
  promise : nat;
  timer : nat
}.

(** [type CallbackEvent]: a function reference. Two references are the same
    callback exactly when they are equal. *)
Definition CallbackEvent : Type := nat.

(** What awaiting [callback(data)] gives inside the [try] of [dispatch]. *)
Inductive awaited : Type :=
  | Fulfilled (result : jsval)
  | Failed (error : jsval)
  | Unsettled.

(** ** Errors, settlements, the console *)

(** The text of a number inside a template literal. *)
Definition show_number (n : Z) : string := pretty n.

Definition show_code (c : field Z) : string :=
  match c with
  | Undefined => "undefined"
  | Null => "null"
  | Value n => show_number n
  end.

(** What a statement can throw: a [TypeError] of the engine, or whatever the
    host's [postMessage] throws. *)
Inductive thrown : Type :=
  | TypeError (message : string)
  | HostError (v : jsval).

(** A rejection reason, by the place that builds it: the [Error] of the
    response branch with its message and its [code] property, the [Error] for
    a response without a valid id, the [Error] of the timeout callback, or
    the value caught around the send. *)
Inductive reason : Type :=
  | ResponseFailure (message : string) (attached : field Z)
  | MissingIdError (message : string)
  | TimeoutError (message : string)
  | SendError (e : thrown).

Inductive settlement : Type :=
  | Resolved (v : jsval)
  | Rejected (r : reason).

Inductive level : Type := Log | Warn | Err.

(** The object literal handed to [JSON.stringify] before a send. *)
Definition wire : Type := list (string * jsval).

(** ** The page: [window] and its channel objects *)

(** [window[channelName]]: nothing, an object without a callable
    [postMessage], or a bridge whose [postMessage] returns ([None]) or throws
    ([Some e]). *)
Inductive binding : Type :=
  | Unbound
  | NotCallable
  | Bridge (post : wire -> option jsval).

Record Window : Type := mkWindow {
  channel : binding;       (* window[this.channelName] *)
  innerChannel : binding   (* window[this.options.innerChannel] *)
}.

(** [bridge && typeof bridge.postMessage === 'function']. *)
Definition isReady (b : binding) : bool :=
  match b with Bridge _ => true | _ => false end.

(** ** The instance *)

(** The closure passed to [window.setTimeout] by [postMessage]. *)
Record TimerTask : Type := mkTask {
  t_id : string;
  t_action : string;
  t_timeout : Z;
  t_promise : nat
}.

Record State : Type := mkState {
  pendingPromises : gmap string PendingPromise;
  eventListeners : gmap string (list CallbackEvent);
  timers : gmap nat TimerTask;            (* timers set and not yet fired or cleared *)
  next_timer : nat;
  next_promise : nat;
  settled : list (nat * settlement);      (* calls of resolve / reject, oldest first *)
  outbox : list wire;                     (* calls of postMessage on the request channel *)
  acks : list wire;                       (* calls of postMessage on the inner channel *)
  console : list (level * string);
  invoked : list (CallbackEvent * jsval)  (* calls of registered callbacks *)
}.

Definition initial : State :=
  mkState ∅ ∅ ∅ 0%nat 0%nat [] [] [] [] [].

(** *** Field updates *)

Definition set_pending (f : gmap string PendingPromise -> gmap string PendingPromise)
    (st : State) : State :=
  mkState (f (pendingPromises st)) (eventListeners st) (timers st) (next_timer st)
          (next_promise st) (settled st) (outbox st) (acks st) (console st) (invoked st).

Definition set_listeners
    (f : gmap string (list CallbackEvent) -> gmap string (list CallbackEvent))
    (st : State) : State :=
  mkState (pendingPromises st) (f (eventListeners st)) (timers st) (next_timer st)
          (next_promise st) (settled st) (outbox st) (acks st) (console st) (invoked st).

(** [clearTimeout(n)]. *)
Definition clearTimeout (n : nat) (st : State) : State :=
  mkState (pendingPromises st) (eventListeners st) (delete n (timers st)) (next_timer st)
          (next_promise st) (settled st) (outbox st) (acks st) (console st) (invoked st).

(** [window.setTimeout(task, task.timeout)]: the new timer is [next_timer st]. *)
Definition setTimeout (task : TimerTask) (st : State) : State :=
  mkState (pendingPromises st) (eventListeners st)
          (<[next_timer st := task]> (timers st)) (S (next_timer st))
          (next_promise st) (settled st) (outbox st) (acks st) (console st) (invoked st).

(** [new Promise(...)]: the new promise is [next_promise st]. *)
Definition newPromise (st : State) : State :=
  mkState (pendingPromises st) (eventListeners st) (timers st) (next_timer st)
          (S (next_promise st)) (settled st) (outbox st) (acks st) (console st) (invoked st).

(** A call of the [resolve] or [reject] function of promise [p]. *)
Definition settle (p : nat) (s : settlement) (st : State) : State :=
  mkState (pendingPromises st) (eventListeners st) (timers st) (next_timer st)
          (next_promise st) (settled st ++ [(p, s)]) (outbox st) (acks st) (console st) (invoked st).

Definition push_outbox (m : wire) (st : State) : State :=
  mkState (pendingPromises st) (eventListeners st) (timers st) (next_timer st)
          (next_promise st) (settled st) (outbox st ++ [m]) (acks st) (console st) (invoked st).

Definition push_ack (m : wire) (st : State) : State :=
  mkState (pendingPromises st) (eventListeners st) (timers st) (next_timer st)
          (next_promise st) (settled st) (outbox st) (acks st ++ [m]) (console st) (invoked st).

(** [console.log], [console.warn], [console.error]; the entry keeps the text
    of the message up to its first interpolated value. *)
Definition say (l : level) (msg : string) (st : State) : State :=
  mkState (pendingPromises st) (eventListeners st) (timers st) (next_timer st)
          (next_promise st) (settled st) (outbox st) (acks st) (console st ++ [(l, msg)])
          (invoked st).

(** A registered callback is called with [d]. *)
Definition push_invoked (callback : CallbackEvent) (d : jsval) (st : State) : State :=
  mkState (pendingPromises st) (eventListeners st) (timers st) (next_timer st)
          (next_promise st) (settled st) (outbox st) (acks st) (console st)
          (invoked st ++ [(callback, d)]).

(** [map.has(k)] for a map whose keys are strings: a key that is not a string
    is never found. *)
Definition has {V} (m : gmap string V) (k : jsval) : bool :=
  match k with
  | JStr s => match m !! s with Some _ => true | None => false end
  | _ => false
  end.

(** [map.get(k)], same convention. *)
Definition get {V} (m : gmap string V) (k : jsval) : option V :=
  match k with
  | JStr s => m !! s
  | _ => None
  end.

(** [payload?.member], and [payload.member] on a value other than [null]:
    [undefined] when the value has no such member. *)
Definition member_opt (sel : Payload -> jsval) (payload : parsed) : jsval :=
  match payload with
  | Envelope p => sel p
  | _ => JUndefined
  end.

(** [!payload] is the negation of this. *)
Definition truthy_parsed (payload : parsed) : bool :=
  match payload with
  | PNull => false
  | PBool b => b
  | PNum n => negb (n =? 0)%Z
  | PStr s => negb (String.eqb s EmptyString)
  | PArr _ | Envelope _ => true
  end.

Definition dquote : string := String (Ascii.ascii_of_nat 34%nat) EmptyString.

(** How an asynchronous method ends: its promise fulfils, it rejects with
    what was thrown, or it is still suspended in [waitForBridgeReady]. *)
Inductive completion : Type :=
  | Returns
  | Throws (e : thrown)
  | Waits.

(** ** [waitForBridgeReady] *)

(** The page as it is at each run of [checkBridge]: [w 0] at the call, [w 1]
    100ms later, and so on. The promise resolves at the first run that finds
    both channels ready; [fuel] bounds the number of re-schedules looked at. *)
Fixpoint waitForBridgeReady (fuel : nat) (w : nat -> Window) (k : nat) : option nat :=
  if isReady (channel (w k)) && isReady (innerChannel (w k)) then Some k
  else match fuel with
       | O => None
       | S fuel' => waitForBridgeReady fuel' w (S k)
       end.

(** [!bridge] for a value read by [getBridge]. *)
Definition missing (b : binding) : bool :=
  match b with Unbound => true | _ => false end.

(** ** The response rule of [dispatch] *)

(** [(code != null && code >= 200 && code < 300) ||
     (code == null && errorMessage == null)]. *)
Definition isSuccess (p : Payload) : bool :=
  match code p with
  | Value n => (200 <=? n)%Z && (n <? 300)%Z
  | _ => nullish (errorMessage p)
  end.

(** [`Flutter request failed with code ${payload.code || "unknown"}`]. *)
Definition failedWithCode (c : field Z) : string :=
  "Flutter request failed with code " +:+
  match c with
  | Value n => if (n =? 0)%Z then "unknown" else show_number n
  | _ => "unknown"
  end.

(** [new Error(payload.errorMessage || ...)] with [error.code = payload.code]. *)
Definition responseError (p : Payload) : reason :=
  ResponseFailure
        (match errorMessage p with
         | Value s => if String.eqb s EmptyString then failedWithCode (code p) else s
         | _ => failedWithCode (code p)
         end)
        (code p).

Definition timeoutMessage (task : TimerTask) : string :=
  "FlutterBridgeSDK: Request timed out for action " +:+ dquote +:+ t_action task +:+ dquote
  +:+ " (id: " +:+ t_id task +:+ ") after " +:+ show_number (t_timeout task) +:+ "ms".

(** The acknowledgement objects built in the [forEach] of [dispatch]. *)
Definition ackSuccess (p : Payload) (result : jsval) : wire :=
  [("action", action p); ("data", result); ("id", id p); ("code", JNum 200)].

Definition ackFailure (p : Payload) : wire :=
  [("action", action p); ("id", id p); ("code", JNum 500)].

(** [innerBridge?.postMessage(JSON.stringify(m))]: skipped when [innerBridge]
    is missing; otherwise the call is recorded and may throw. *)
Definition postInner (innerBridge : binding) (m : wire) (st : State) : State * option thrown :=
  match innerBridge with
  | Unbound => (st, None)
  | NotCallable => (st, Some (TypeError "innerBridge.postMessage is not a function"))
  | Bridge post =>
      (push_ack m st, match post m with None => None | Some e => Some (HostError e) end)
  end.

(** [nativeBridge!.postMessage(messageJson)]: the assertion [!] checks
    nothing at run time. *)
Definition postNative (nativeBridge : binding) (m : wire) (st : State) : State * option thrown :=
  match nativeBridge with
  | Unbound => (st, Some (TypeError "Cannot read properties of undefined"))
  | NotCallable => (st, Some (TypeError "nativeBridge.postMessage is not a function"))
  | Bridge post =>
      (push_outbox m st, match post m with None => None | Some e => Some (HostError e) end)
  end.

(** ** The methods of [FlutterBridgeSDK] *)

Section FlutterBridgeSDK.

(** [JSON.parse]: [None] when it throws. *)
Variable JSON_parse : string -> option parsed.

(** What each registered callback does with the data it is given. *)
Variable callbacks : CallbackEvent -> jsval -> awaited.

(** [rejectPendingPromise(id, reason)]. *)
Definition rejectPendingPromise (k : jsval) (r : reason) (st : State) : State :=
  match k with
  | JStr s =>
      match pendingPromises st !! s with
      | Some promiseCallbacks =>
          set_pending (delete s)
            (settle (promise promiseCallbacks) (Rejected r)
               (clearTimeout (timer promiseCallbacks) st))
      | None => st
      end
  | _ => st
  end.

(** The [try] block of [dispatch]: either the method returns there, or it
    goes on with the parsed payload. *)
Inductive validated : Type :=
  | Abandon (st : State)
  | Continue (payload : parsed) (st : State).

Definition validate (messageJson : string) (st : State) : validated :=
  match JSON_parse messageJson with
  | None =>
      Abandon (say Err "FlutterBridgeSDK: Failed to parse message from Flutter:" st)
  | Some payload =>
      if negb (truthy_parsed payload) || negb (is_string (member_opt id payload)) then
        if has (pendingPromises st) (member_opt id payload) then
          Continue payload
            (rejectPendingPromise (member_opt id payload)
               (MissingIdError "Received response from Flutter is missing a valid ID.")
               (say Err "FlutterBridgeSDK: Received message is missing a valid ID." st))
        else if truthy (member_opt action payload)
                && has (eventListeners st) (member_opt action payload) then
          Continue payload
            (say Warn "FlutterBridgeSDK: Received event message might be malformed (missing id?), proceeding with action:" st)
        else
          Abandon (say Err "FlutterBridgeSDK: Received malformed message from Flutter." st)
      else Continue payload st
  end.

(** The branch of [dispatch] for the response of a pending request. *)
Definition complete (p : Payload) (st : State) : State :=
  match id p with
  | JStr k =>
      match pendingPromises st !! k with
      | Some promiseCallbacks =>
          let st1 := clearTimeout (timer promiseCallbacks) st in
          let st2 :=
            if isSuccess p
            then settle (promise promiseCallbacks) (Resolved (data p)) st1
            else settle (promise promiseCallbacks) (Rejected (responseError p)) st1 in
          set_pending (delete k) st2
      | None => st
      end
  | _ => st
  end.

(** The [catch] of the callback wrapper: the failure acknowledgement, then
    [console.error] unless the send threw as well. *)
Definition notifyFailure (innerBridge : binding) (p : Payload) (st : State) : State :=
  match postInner innerBridge (ackFailure p) st with
  | (st1, None) => say Err "FlutterBridgeSDK: Error in event listener for action " st1
  | (st1, Some _) => st1
  end.

(** The body of [listeners.forEach(async (callback) => ...)], run to the
    end of the callback's promise. *)
Definition notify (innerBridge : binding) (p : Payload) (st : State)
    (callback : CallbackEvent) : State :=
  let st0 := push_invoked callback (data p) st in
  match callbacks callback (data p) with
  | Fulfilled result =>
      match postInner innerBridge (ackSuccess p result) st0 with
      | (st1, None) => st1
      | (st1, Some _) => notifyFailure innerBridge p st1
      end
  | Failed _ => notifyFailure innerBridge p st0
  | Unsettled => st0
  end.

(** The branch of [dispatch] for an event pushed by the host. [innerBridge]
    is read once, before the wait. The set of callbacks is the one the
    registry holds at the call: calls of [listenMessage] or of a [cancel]
    made while [dispatch] waits, which would change that set before it is
    gone through, are not followed here. *)
Definition deliver (fuel : nat) (w : nat -> Window) (p : Payload) (st : State)
    : State * completion :=
  let listeners := default [] (get (eventListeners st) (action p)) in
  let innerBridge := innerChannel (w 0%nat) in
  if missing innerBridge then
    match waitForBridgeReady fuel w 0 with
    | None => (st, Waits)
    | Some _ => (foldl (notify innerBridge p) st listeners, Returns)
    end
  else (foldl (notify innerBridge p) st listeners, Returns).

(** The part of [dispatch] after the [try] block. The warning of the last
    branch is built with [payload.action] and [payload.id] in a template
    literal, and throws when one of them does not convert to a string. *)
Definition route (fuel : nat) (w : nat -> Window) (payload : parsed) (st : State)
    : State * completion :=
  match payload with
  | PNull =>
      (st, Throws (TypeError "Cannot read properties of null (reading 'id')"))
  | PBool _ | PNum _ | PStr _ | PArr _ =>
      (say Warn "FlutterBridgeSDK: Received message with unhandled action or ID: Action=" st,
       Returns)
  | Envelope p =>
      if has (pendingPromises st) (id p) then (complete p st, Returns)
      else if truthy (action p) && has (eventListeners st) (action p) then
        deliver fuel w p st
      else if printable (action p) && printable (id p) then
        (say Warn "FlutterBridgeSDK: Received message with unhandled action or ID: Action=" st,
         Returns)
      else (st, Throws (TypeError "Cannot convert object to primitive value"))
  end.

(** [dispatch(messageJson)]. *)
Definition dispatch (fuel : nat) (w : nat -> Window) (messageJson : string) (st : State)
    : State * completion :=
  let st0 := say Log "FlutterBridgeSDK: Received message from Flutter: " st in
  match validate messageJson st0 with
  | Abandon st1 => (st1, Returns)
  | Continue payload st1 => route fuel w payload st1
  end.

(** The executor of the promise returned by [postMessage]; [nanoid] is the
    identifier drawn for this call. Returns the handle of the promise. *)
Definition issue (nativeBridge : binding) (nanoid : string) (act : string) (dat : jsval)
    (timeout : Z) (st : State) : nat * State :=
  let p := next_promise st in
  let t := next_timer st in
  let st1 := setTimeout (mkTask nanoid act timeout p) (newPromise st) in
  let st2 := set_pending (<[nanoid := mkPending p t]>) st1 in
  let payload := [("action", JStr act); ("id", JStr nanoid); ("data", dat)] in
  let st3 := say Log "FlutterBridgeSDK: Sending message to Flutter (id: " st2 in
  match postNative nativeBridge payload st3 with
  | (st4, None) => (p, st4)
  | (st4, Some error) =>
      (p, settle p (Rejected (SendError error))
            (set_pending (delete nanoid)
               (clearTimeout t
                  (say Err "FlutterBridgeSDK: Error sending message (id: " st4))))
  end.

(** [postMessage(action, data, timeout)]; [None] while the call is still
    suspended in [waitForBridgeReady]. [nativeBridge] is read once, before
    the wait. *)
Definition postMessage (fuel : nat) (w : nat -> Window) (nanoid : string) (act : string)
    (dat : jsval) (timeout : Z) (st : State) : option (nat * State) :=
  let nativeBridge := channel (w 0%nat) in
  if missing nativeBridge then
    match waitForBridgeReady fuel w 0 with
    | None => None
    | Some _ => Some (issue nativeBridge nanoid act dat timeout st)
    end
  else Some (issue nativeBridge nanoid act dat timeout st).

(** The browser runs the callback of timer [n]. *)
Definition fireTimer (n : nat) (st : State) : State :=
  match timers st !! n with
  | None => st
  | Some task =>
      let st1 := clearTimeout n st in
      if has (pendingPromises st1) (JStr (t_id task)) then
        settle (t_promise task)
          (Rejected (TimeoutError (timeoutMessage task)))
          (set_pending (delete (t_id task)) st1)
      else st1
  end.

(** The function [cancel] built by [listenMessage(action, _)]. *)
Definition cancel (act : string) (st : State) : State :=
  match eventListeners st !! act with
  | Some _ =>
      say Log "FlutterBridgeSDK: No more listeners for action "
        (set_listeners (delete act) st)
  | None => st
  end.

(** [listenMessage(action, callback)]: the new state and the function
    [cancel] it returns. *)
Definition listenMessage (act : string) (callback : CallbackEvent) (st : State)
    : State * (State -> State) :=
  let st1 :=
    match eventListeners st !! act with
    | Some _ => st
    | None => set_listeners (<[act := []]>) st
    end in
  let listeners := default [] (eventListeners st1 !! act) in
  if bool_decide (callback ∈ listeners) then
    (say Warn "FlutterBridgeSDK: Listener already registered for action " st1,
     cancel act)
  else
    let st2 :=
      if (0 <? length listeners)%nat then
        say Warn "FlutterBridgeSDK: Listener already exists,the old one will be replaced with the new one."
          (set_listeners (<[act := []]>) st1)
      else st1 in
    (say Log "FlutterBridgeSDK: Listener registered for action "
       (set_listeners
          (<[act := (default [] (eventListeners st2 !! act) ++ [callback])%list]>) st2),
     cancel act).

End FlutterBridgeSDK.

(** ** The earlier [dispatch]

    The other version of the class kept in the repository (the one with
    [ensureInitialized] and a [nativeBridge] member) has the same [dispatch]
    except for the event branch, which reads the inner channel and goes
    straight to the callbacks, without any wait. *)

Module Earlier.

Section Dispatch.

Variable JSON_parse : string -> option parsed.
Variable callbacks : CallbackEvent -> jsval -> awaited.

Definition deliver (w : Window) (p : Payload) (st : State) : State * completion :=
  let listeners := default [] (get (eventListeners st) (action p)) in
  let innerChannel := innerChannel w in
  (foldl (notify callbacks innerChannel p) st listeners, Returns).

Definition route (w : Window) (payload : parsed) (st : State) : State * completion :=
  match payload with
  | PNull =>
      (st, Throws (TypeError "Cannot read properties of null (reading 'id')"))
  | PBool _ | PNum _ | PStr _ | PArr _ =>
      (say Warn "FlutterBridgeSDK: Received message with unhandled action or ID: Action=" st,
       Returns)
  | Envelope p =>
      if has (pendingPromises st) (id p) then (complete p st, Returns)
      else if truthy (action p) && has (eventListeners st) (action p) then
        deliver w p st
      else if printable (action p) && printable (id p) then
        (say Warn "FlutterBridgeSDK: Received message with unhandled action or ID: Action=" st,
         Returns)
      else (st, Throws (TypeError "Cannot convert object to primitive value"))
  end.

Definition dispatch (w : Window) (messageJson : string) (st : State)
    : State * completion :=
  let st0 := say Log "FlutterBridgeSDK: Received message from Flutter: " st in
  match validate JSON_parse messageJson st0 with
  | Abandon st1 => (st1, Returns)
  | Continue payload st1 => route w payload st1
  end.

End Dispatch.

(** *** Initialization

    This version keeps the bridge object it once found in [nativeBridge], and
    [postMessage] waits for [initializationPromise], which [detectBridge]
    resolves the first time it finds the bridge. *)

(** The arguments of a call of [postMessage], with the identifier [nanoid()]
    returns for it. *)
Record Request : Type := mkRequest {
  r_nanoid : string;
  r_action : string;
  r_data : jsval;
  r_timeout : Z
}.

Record Instance : Type := mkInstance {
  core : State;                                  (* the two maps and what was done *)
  nativeBridge : option (wire -> option jsval);  (* [null], or the bridge detected *)
  isInitialized : bool;
  suspended : list Request  (* calls awaiting [initializationPromise], oldest first *)
}.

Definition fresh : Instance := mkInstance initial None false [].

Definition on_core (f : State -> State) (inst : Instance) : Instance :=
  mkInstance (f (core inst)) (nativeBridge inst) (isInitialized inst) (suspended inst).

(** How a call of [postMessage] stands: its promise was created ([Issued]),
    [ensureInitialized] threw its [Error], or the call is still waiting. *)
Inductive outcome : Type :=
  | Issued (p : nat)
  | NotInitialized
  | Suspended.

(** What a call of [postMessage] does once [initializationPromise] is
    resolved: the check of [ensureInitialized], then the promise executor. *)
Definition proceed (req : Request) (inst : Instance) : Instance * outcome :=
  match nativeBridge inst with
  | None => (inst, NotInitialized)
  | Some post =>
      let r := issue (Bridge post) (r_nanoid req) (r_action req) (r_data req)
                 (r_timeout req) (core inst) in
      (on_core (fun _ => r.2) inst, Issued r.1)
  end.

(** [resolveInitialization()]: the waiting calls go on, in the order in
    which they were made. *)
Definition resume (inst : Instance) : Instance :=
  foldl (fun i req => (proceed req i).1)
        (mkInstance (core inst) (nativeBridge inst) (isInitialized inst) [])
        (suspended inst).

(** [detectBridge()] on the page [w]. *)
Definition detectBridge (w : Window) (inst : Instance) : Instance :=
  match channel w with
  | Bridge post =>
      let st := say Log "FlutterBridgeSDK: Native bridge (window.Bridge.postMessage) detected."
                  (core inst) in
      if isInitialized inst
      then mkInstance st (Some post) true (suspended inst)
      else resume (mkInstance st (Some post) true (suspended inst))
  | _ =>
      on_core (say Warn "FlutterBridgeSDK: Native bridge (window.Bridge.postMessage) not found yet.")
        inst
  end.

(** [new FlutterBridgeSDK()] on the page [w]. *)
Definition construct (w : Window) : Instance :=
  on_core (say Log "FlutterBridgeSDK: Script loaded. Waiting for native bridge or explicit initialization.")
    (detectBridge w fresh).

(** [initialize()]. *)
Definition initialize (w : Window) (inst : Instance) : Instance :=
  detectBridge w
    (on_core (say Log "FlutterBridgeSDK: Manual initialization triggered.") inst).

(** [ensureInitialized()] up to its [await]. *)
Definition ensureInitialized (w : Window) (inst : Instance) : Instance :=
  if isInitialized inst then inst else detectBridge w inst.

(** [postMessage(action, data, timeout)] of this version. *)
Definition postMessage (w : Window) (req : Request) (inst : Instance)
    : Instance * outcome :=
  let inst1 := ensureInitialized w inst in
  if isInitialized inst1 then proceed req inst1
  else (mkInstance (core inst1) (nativeBridge inst1) (isInitialized inst1)
          (suspended inst1 ++ [req]),
        Suspended).

(** The calls the page can make on this version. *)
Inductive call : Type :=
  | Initialize (w : Window)
  | PostMessage (w : Window) (req : Request).

Definition step (inst : Instance) (c : call) : Instance :=
  match c with
  | Initialize w => initialize w inst
  | PostMessage w req => (postMessage w req inst).1
  end.

Definition run (inst : Instance) (calls : list call) : Instance := foldl step inst calls.

(** The object handed to the bridge for a request. *)
Definition wire_of (req : Request) : wire :=
  [("action", JStr (r_action req)); ("id", JStr (r_nanoid req)); ("data", r_data req)].

End Earlier.

(** ** A sample page, used to run the methods on concrete inputs *)

Module Sample.

Definition quoted (s : string) : string := dquote +:+ s +:+ dquote.

(** [{"id":"X"}] *)
Definition raw_id_only : string := "{" +:+ quoted "id" +:+ ":" +:+ quoted "X" +:+ "}".
(** [{"id":"X","code":500,"errorMessage":"bad"}] *)
Definition raw_bad : string :=
  "{" +:+ quoted "id" +:+ ":" +:+ quoted "X" +:+ "," +:+ quoted "code" +:+ ":500,"
  +:+ quoted "errorMessage" +:+ ":" +:+ quoted "bad" +:+ "}".
(** [{"id":"X","code":500,"errorMessage":<empty string>}] *)
Definition raw_empty_message : string :=
  "{" +:+ quoted "id" +:+ ":" +:+ quoted "X" +:+ "," +:+ quoted "code" +:+ ":500,"
  +:+ quoted "errorMessage" +:+ ":" +:+ dquote +:+ dquote +:+ "}".
(** [{"id":"X","code":0}] *)
Definition raw_code_zero : string :=
  "{" +:+ quoted "id" +:+ ":" +:+ quoted "X" +:+ "," +:+ quoted "code" +:+ ":0}".
(** [{"id":"X","code":200,"data":1}] and the same for ["Y"] with data 2 *)
Definition raw_ok (k : string) (d : Z) : string :=
  "{" +:+ quoted "id" +:+ ":" +:+ quoted k +:+ "," +:+ quoted "code" +:+ ":200,"
  +:+ quoted "data" +:+ ":" +:+ show_number d +:+ "}".
(** [{"action":"login","id":"e1","data":7}] *)
Definition raw_event : string :=
  "{" +:+ quoted "action" +:+ ":" +:+ quoted "login" +:+ "," +:+ quoted "id" +:+ ":"
  +:+ quoted "e1" +:+ "," +:+ quoted "data" +:+ ":7}".

(** The objects these texts denote. *)
Definition id_only : Payload :=
  mkPayload JUndefined (JStr "X") JUndefined Undefined Undefined.
Definition bad : Payload :=
  mkPayload JUndefined (JStr "X") JUndefined (Value 500%Z) (Value "bad").
Definition empty_message : Payload :=
  mkPayload JUndefined (JStr "X") JUndefined (Value 500%Z) (Value EmptyString).
Definition code_zero : Payload :=
  mkPayload JUndefined (JStr "X") JUndefined (Value 0%Z) Undefined.
Definition ok (k : string) (d : Z) : Payload :=
  mkPayload JUndefined (JStr k) (JNum d) (Value 200%Z) Undefined.
Definition login_event : Payload :=
  mkPayload (JStr "login") (JStr "e1") (JNum 7) Undefined Undefined.

(** [JSON.parse] on the texts above; it throws on every other text met
    here, such as ["{oops"]. *)
Definition parse (raw : string) : option parsed :=
  if String.eqb raw raw_id_only then Some (Envelope id_only)
  else if String.eqb raw raw_bad then Some (Envelope bad)
  else if String.eqb raw raw_empty_message then Some (Envelope empty_message)
  else if String.eqb raw raw_code_zero then Some (Envelope code_zero)
  else if String.eqb raw (raw_ok "X" 1) then Some (Envelope (ok "X" 1))
  else if String.eqb raw (raw_ok "Y" 2) then Some (Envelope (ok "Y" 2))
  else if String.eqb raw raw_event then Some (Envelope login_event)
  else None.

(** Callback 1 doubles a number, callback 2 rejects, callback 3 answers
    ["pong"], any other never settles. *)
Definition handlers (callback : CallbackEvent) (d : jsval) : awaited :=
  match callback with
  | 1%nat => match d with JNum n => Fulfilled (JNum (2 * n)) | _ => Fulfilled JUndefined end
  | 2%nat => Failed (JStr "boom")
  | 3%nat => Fulfilled (JStr "pong")
  | _ => Unsettled
  end.

(** A bridge object whose [postMessage] always returns. *)
Definition bridge : binding := Bridge (fun _ => None).

(** Both channels are there from the start. *)
Definition ready (k : nat) : Window := mkWindow bridge bridge.

(** The inner channel is injected just before the first re-check. *)
Definition late_inner (k : nat) : Window :=
  match k with
  | O => mkWindow bridge Unbound
  | S _ => mkWindow bridge bridge
  end.

(** The request channel is injected just before the first re-check. *)
Definition late_channel (k : nat) : Window :=
  match k with
  | O => mkWindow Unbound bridge
  | S _ => mkWindow bridge bridge
  end.

(** The instance after [postMessage("getUser", undefined, 15000)] drew the
    identifier ["X"]. *)
Definition one_pending : State :=
  (issue bridge "X" "getUser" JUndefined 15000 initial).2.

(** Two requests in flight: ["X"] drawn first, then ["Y"]. *)
Definition two_pending : State :=
  (issue bridge "Y" "getTeam" JUndefined 15000 one_pending).2.

(** The instance after [listenMessage("login", callback 1)]. *)
Definition listening : State := (listenMessage "login" 1%nat initial).1.

(** The instance after [listenMessage("login", callback 2)], the callback
    that rejects. *)
Definition listening_rejecting : State := (listenMessage "login" 2%nat initial).1.

(** A bridge object whose [postMessage] always throws. *)
Definition faulty : binding := Bridge (fun _ => Some (JStr "closed")).

(** Pages as they are at one moment. *)
Definition empty_page : Window := mkWindow Unbound Unbound.
Definition full_page : Window := mkWindow bridge bridge.

(** Neither channel is ever injected. *)
Definition never (k : nat) : Window := empty_page.

(** Both channels are injected just before the third re-check. *)
Definition late_both (k : nat) : Window :=
  if (k <? 3)%nat then empty_page else full_page.

(** The inner channel is an object without [postMessage]. *)
Definition broken_inner (k : nat) : Window := mkWindow bridge NotCallable.

(** The inner channel's [postMessage] throws. *)
Definition faulty_inner (k : nat) : Window := mkWindow bridge faulty.

(** The request channel's [postMessage] throws. *)
Definition faulty_channel (k : nat) : Window := mkWindow faulty bridge.

(** Two calls of the earlier [postMessage]. *)
Definition first_request : Earlier.Request :=
  Earlier.mkRequest "X" "getUser" JUndefined 15000.
Definition second_request : Earlier.Request :=
  Earlier.mkRequest "Y" "getTeam" JUndefined 15000.

(** The earlier instance, built on an empty page, after both calls. *)
Definition queued : Earlier.Instance :=
  Earlier.run (Earlier.construct empty_page)
    [Earlier.PostMessage empty_page first_request;
     Earlier.PostMessage empty_page second_request].

(** [{"action":"login","id":"X","data":7}] *)
Definition raw_login_response : string :=
  "{" +:+ quoted "action" +:+ ":" +:+ quoted "login" +:+ "," +:+ quoted "id" +:+ ":"
  +:+ quoted "X" +:+ "," +:+ quoted "data" +:+ ":7}".
Definition login_response : Payload :=
  mkPayload (JStr "login") (JStr "X") (JNum 7) Undefined Undefined.

(** An event whose action is the empty string, with the id ["e2"]. *)
Definition raw_empty_action : string :=
  "{" +:+ quoted "action" +:+ ":" +:+ dquote +:+ dquote +:+ "," +:+ quoted "id" +:+ ":"
  +:+ quoted "e2" +:+ "}".
Definition empty_action : Payload :=
  mkPayload (JStr EmptyString) (JStr "e2") JUndefined Undefined Undefined.

(** [{"action":"logout","id":"Z"}] *)
Definition raw_unknown : string :=
  "{" +:+ quoted "action" +:+ ":" +:+ quoted "logout" +:+ "," +:+ quoted "id" +:+ ":"
  +:+ quoted "Z" +:+ "}".
Definition unknown : Payload :=
  mkPayload (JStr "logout") (JStr "Z") JUndefined Undefined Undefined.

(** [{"action":{"toString":1},"id":"z"}] *)
Definition raw_object_action : string :=
  "{" +:+ quoted "action" +:+ ":{" +:+ quoted "toString" +:+ ":1}," +:+ quoted "id"
  +:+ ":" +:+ quoted "z" +:+ "}".
Definition object_action : Payload :=
  mkPayload (JObj [("toString", JNum 1)]) (JStr "z") JUndefined Undefined Undefined.

(** [JSON.parse] on these four texts as well. *)
Definition parse_more (raw : string) : option parsed :=
  if String.eqb raw raw_object_action then Some (Envelope object_action)
  else if String.eqb raw raw_login_response then Some (Envelope login_response)
  else if String.eqb raw raw_empty_action then Some (Envelope empty_action)
  else if String.eqb raw raw_unknown then Some (Envelope unknown)
  else parse raw.

(** Callback 1 listens to "login" and the request ["X"] is in flight. *)
Definition listening_pending : State :=
  (issue bridge "X" "getUser" JUndefined 15000 listening).2.

End Sample.

(** ** Runs of an instance *)

(** What can happen to an instance, one entry per call from the page, from
    the host or from the browser's timer queue. Each call is run to its end
    before the next one starts. *)
Inductive call : Type :=
  | PostMessage (w : nat -> Window) (nanoid : string) (act : string) (dat : jsval)
      (timeout : Z)
  | Dispatch (w : nat -> Window) (messageJson : string)
  | TimerFires (n : nat)
  | ListenMessage (act : string) (callback : CallbackEvent)
  | Cancel (act : string).

Definition step (JSON_parse : string -> option parsed)
    (callbacks : CallbackEvent -> jsval -> awaited) (fuel : nat) (st : State) (c : call)
    : State :=
  match c with
  | PostMessage w nanoid act dat timeout =>
      match postMessage fuel w nanoid act dat timeout st with
      | Some (_, st') => st'
      | None => st
      end
  | Dispatch w messageJson => (dispatch JSON_parse callbacks fuel w messageJson st).1
  | TimerFires n => fireTimer n st
  | ListenMessage act callback => (listenMessage act callback st).1
  | Cancel act => cancel act st
  end.

Definition run (JSON_parse : string -> option parsed)
    (callbacks : CallbackEvent -> jsval -> awaited) (fuel : nat) (st : State)
    (calls : list call) : State :=
  foldl (step JSON_parse callbacks fuel) st calls.

(** The identifiers [nanoid()] returned, in the order of the calls. *)
Fixpoint drawn (calls : list call) : list string :=
  match calls with
  | [] => []
  | PostMessage _ nanoid _ _ _ :: rest => nanoid :: drawn rest
  | _ :: rest => drawn rest
  end.

(** The calls of [resolve] and [reject] made so far on promise [p]. *)
Definition settlements (p : nat) (st : State) : list settlement :=
  (filter (λ e : nat * settlement, e.1 = p) (settled st)).*2.

(** The four ways a request ends. *)
Definition is_completion (s : settlement) : Prop :=
  match s with
  | Resolved _ => True
  | Rejected (ResponseFailure _ _) => True
  | Rejected (TimeoutError _) => True
  | Rejected (SendError _) => True
  | Rejected (MissingIdError _) => False
  end.

(** The correlation table and the timers agree with each other and with the
    settlements, for identifiers drawn from [ids]. *)
Record consistent (ids : list string) (st : State) : Prop := mkConsistent {
  pending_timer : ∀ k pc, pendingPromises st !! k = Some pc →
    ∃ task, timers st !! timer pc = Some task
            ∧ t_id task = k ∧ t_promise task = promise pc;
  timer_pending : ∀ n task, timers st !! n = Some task →
    pendingPromises st !! t_id task = Some (mkPending (t_promise task) n);
  timer_bound : ∀ n task, timers st !! n = Some task → (n < next_timer st)%nat;
  promise_bound : ∀ k pc, pendingPromises st !! k = Some pc →
    (promise pc < next_promise st)%nat;
  settled_bound : ∀ p s, (p, s) ∈ settled st → (p < next_promise st)%nat;
  settled_kind : ∀ p s, (p, s) ∈ settled st → is_completion s;
  pending_unsettled : ∀ k pc, pendingPromises st !! k = Some pc →
    settlements (promise pc) st = [];
  pending_or_settled : ∀ p, (p < next_promise st)%nat →
    (∃ k pc, pendingPromises st !! k = Some pc ∧ promise pc = p)
    ∨ length (settlements p st) = 1%nat;
  pending_drawn : ∀ k pc, pendingPromises st !! k = Some pc → k ∈ ids;
  promise_inj : ∀ k1 k2 pc1 pc2, pendingPromises st !! k1 = Some pc1 →
    pendingPromises st !! k2 = Some pc2 → promise pc1 = promise pc2 → k1 = k2
}.

(** Two states with the same correlation table, timers and settlements. *)
Definition same_requests (st st' : State) : Prop :=
  pendingPromises st' = pendingPromises st
  ∧ timers st' = timers st
  ∧ next_timer st' = next_timer st
  ∧ next_promise st' = next_promise st
  ∧ settled st' = settled st.

(** Every action of the registry has exactly one callback. *)
Definition single_listener (st : State) : Prop :=
  ∀ act listeners, eventListeners st !! act = Some listeners → length listeners = 1%nat.

(** A call that neither carries a response for the identifier [k] nor runs
    the timer [t]. *)
Definition unrelated (JSON_parse : string -> option parsed) (k : string) (t : nat)
    (c : call) : Prop :=
  match c with
  | Dispatch _ messageJson =>
      ∀ p, JSON_parse messageJson = Some (Envelope p) → id p ≠ JStr k
  | TimerFires n => n ≠ t
  | _ => True
  end.

(** A call that neither registers a callback for [act] nor cancels it. *)
Definition keeps_registration (act : string) (c : call) : Prop :=
  match c with
  | ListenMessage act' _ | Cancel act' => act' ≠ act
  | _ => True
  end.

(** The acknowledgement owed to the host for one callback of an event. *)
Definition acknowledgement (callbacks : CallbackEvent -> jsval -> awaited) (p : Payload)
    (callback : CallbackEvent) : option wire :=
  match callbacks callback (data p) with
  | Fulfilled result =>
      Some [("action", action p); ("data", result); ("id", id p); ("code", JNum 200)]
  | Failed _ => Some [("action", action p); ("id", id p); ("code", JNum 500)]
  | Unsettled => None
  end.

(** A function from states to states that leaves the registry as it is: what
    a [cancel] without effect would be. *)
Definition leaves_registry (f : State -> State) (st : State) : Prop :=
  eventListeners (f st) = eventListeners st.

(** [isBridgeReady && isInnerBridgeReady] in [checkBridge]. *)
Definition bothReady (w : Window) : bool :=
  isReady (channel w) && isReady (innerChannel w).

(** The sends attempted for one callback of an event when every call of the
    inner channel's [postMessage] throws: the one in the [try] and the one in
    the [catch]. *)
Definition attempts (callbacks : CallbackEvent -> jsval -> awaited) (p : Payload)
    (callback : CallbackEvent) : list wire :=
  match callbacks callback (data p) with
  | Fulfilled result => [ackSuccess p result; ackFailure p]
  | Failed _ => [ackFailure p]
  | Unsettled => []
  end.

(** Whether the warning for a message that cannot be routed fails to be
    built: the message got past the [try] block (it is an object with a
    string [id]) and its [action] does not convert to a string. *)
Definition warning_throws (payload : parsed) : bool :=
  truthy_parsed payload && is_string (member_opt id payload)
  && negb (printable (member_opt action payload)).

(** What [dispatch] writes to the console for a message it cannot route. *)
Definition unroutable (payload : parsed) : level * string :=
  if truthy_parsed payload && is_string (member_opt id payload)
  then (Warn, "FlutterBridgeSDK: Received message with unhandled action or ID: Action=")
  else (Err, "FlutterBridgeSDK: Received malformed message from Flutter.").

(** What [detectBridge] keeps true of the earlier instance: the promise of
    initialization is resolved exactly when a bridge is stored, and no call
    waits on a resolved promise. *)
Definition wellInitialized (inst : Earlier.Instance) : Prop :=
  (Earlier.isInitialized inst = true →
     Earlier.nativeBridge inst ≠ None ∧ Earlier.suspended inst = [])
  ∧ (Earlier.isInitialized inst = false → Earlier.nativeBridge inst = None).

(** ** What the response rule is compared with *)

(** A member is absent when the envelope does not carry it or carries [null]:
    the two cases [x == null] does not tell apart. *)
Definition absent {A} (x : field A) : Prop := x = Undefined ∨ x = Null.

(** The success rule in the words of the specification. *)
Definition success_as_specified (p : Payload) : Prop :=
  (∃ n, code p = Value n ∧ (200 ≤ n < 300)%Z) ∨ (absent (code p) ∧ absent (errorMessage p)).

(** The failure message in the words of the specification: [errorMessage]
    when present, else a text naming the code, with ["unknown"] only for an
    absent code. *)
Definition message_as_specified (p : Payload) (msg : string) : Prop :=
  match errorMessage p with
  | Value s => msg = s
  | _ =>
      match code p with
      | Value n => msg = "Flutter request failed with code " +:+ show_number n
      | _ => msg = "Flutter request failed with code unknown"
      end
  end.

(** An envelope has no usable [errorMessage] when the member is absent or is
    the empty string. *)
Definition no_message (p : Payload) : Prop :=
  absent (errorMessage p) ∨ errorMessage p = Value EmptyString.

Lemma nullish_absent {A} (x : field A) : nullish x = true ↔ absent x.
Proof.
  unfold absent. destruct x; simpl; split; intros H; auto; try discriminate.
  destruct H; discriminate.
Qed.

Lemma isSuccess_spec (p : Payload) : isSuccess p = true ↔ success_as_specified p.
Proof.
  unfold isSuccess, success_as_specified. destruct (code p) as [| |n] eqn:Hc.
  - rewrite nullish_absent. split.
    + intros H. right. split; [left; reflexivity | exact H].
    + intros [(n & Hn & _) | [_ H]]; [discriminate | exact H].
  - rewrite nullish_absent. split.
    + intros H. right. split; [right; reflexivity | exact H].
    + intros [(n & Hn & _) | [_ H]]; [discriminate | exact H].
  - rewrite andb_true_iff, Z.leb_le, Z.ltb_lt. split.
    + intros H. left. exists n. split; [reflexivity | lia].
    + intros [(m & Hm & Hr) | [[H | H] _]]; try discriminate.
      injection Hm as ->. lia.
Qed.

Section Properties.

Variable JSON_parse : string -> option parsed.
Variable callbacks : CallbackEvent -> jsval -> awaited.

(** *** Malformed input *)

(** C8. When [JSON.parse] throws on the text handed to [dispatch], the
    method returns without throwing and nothing but the console changes:
    the pending-promise map and the event-listener map are the ones from
    before the call, and so are the timers, the settlements and both
    outgoing channels. *)
Theorem dispatch_unparseable_no_change (fuel : nat) (w : nat -> Window) (raw : string)
    (st : State) :
  JSON_parse raw = None →
  (dispatch JSON_parse callbacks fuel w raw st).2 = Returns
  ∧ pendingPromises (dispatch JSON_parse callbacks fuel w raw st).1 = pendingPromises st
  ∧ eventListeners (dispatch JSON_parse callbacks fuel w raw st).1 = eventListeners st
  ∧ timers (dispatch JSON_parse callbacks fuel w raw st).1 = timers st
  ∧ settled (dispatch JSON_parse callbacks fuel w raw st).1 = settled st
  ∧ outbox (dispatch JSON_parse callbacks fuel w raw st).1 = outbox st
  ∧ acks (dispatch JSON_parse callbacks fuel w raw st).1 = acks st.
Proof.
  intros Hparse. unfold dispatch, validate. rewrite Hparse. simpl.
  repeat split.
Qed.

(** *** Responses *)

(** A message whose [id] names a pending request goes to the response
    branch, whatever else it carries. *)
Lemma dispatch_response (fuel : nat) (w : nat -> Window) (raw : string) (p : Payload)
    (k : string) (pc : PendingPromise) (st : State) :
  JSON_parse raw = Some (Envelope p) →
  id p = JStr k →
  pendingPromises st !! k = Some pc →
  dispatch JSON_parse callbacks fuel w raw st =
    (set_pending (delete k)
       (settle (promise pc)
          (if isSuccess p then Resolved (data p) else Rejected (responseError p))
          (clearTimeout (timer pc)
             (say Log "FlutterBridgeSDK: Received message from Flutter: " st))),
     Returns).
Proof.
  intros Hparse Hid Hk. unfold dispatch, validate. rewrite Hparse.
  simpl. rewrite Hid. simpl. unfold complete. rewrite Hid. simpl. rewrite Hk.
  destruct (isSuccess p); reflexivity.
Qed.

(** C2. A response whose [id] names a pending request resolves the promise
    of that request with the envelope's [data] exactly when [code] is
    present and in [200,300), or [code] and [errorMessage] are both absent;
    otherwise it rejects it. An envelope that carries nothing but the [id]
    resolves it with [undefined]. *)
Theorem dispatch_resolves_iff_success (fuel : nat) (w : nat -> Window) (raw : string)
    (p : Payload) (k : string) (pc : PendingPromise) (st : State) :
  JSON_parse raw = Some (Envelope p) →
  id p = JStr k →
  pendingPromises st !! k = Some pc →
  (success_as_specified p ↔
     settled (dispatch JSON_parse callbacks fuel w raw st).1 = (settled st ++ [(promise pc, Resolved (data p))])%list)
  ∧ (¬ success_as_specified p →
     settled (dispatch JSON_parse callbacks fuel w raw st).1
     = (settled st ++ [(promise pc, Rejected (responseError p))])%list)
  ∧ (code p = Undefined → errorMessage p = Undefined → data p = JUndefined →
     settled (dispatch JSON_parse callbacks fuel w raw st).1
     = (settled st ++ [(promise pc, Resolved JUndefined)])%list).
Proof.
  intros Hparse Hid Hk.
  rewrite (dispatch_response fuel w raw p k pc st Hparse Hid Hk). simpl.
  rewrite <- isSuccess_spec. split; [| split].
  - destruct (isSuccess p); split; intros H; try reflexivity; try discriminate.
    apply app_inv_head in H. discriminate.
  - intros H. destruct (isSuccess p); [contradiction H; reflexivity | reflexivity].
  - intros Hc He Hd. unfold isSuccess. rewrite Hc, He, Hd. reflexivity.
Qed.

(** C3, as the code has it. A response classified as failure rejects with
    an [Error] that carries the envelope's [code]; its message is the
    envelope's [errorMessage] when that is a non-empty string, and
    otherwise the text "Flutter request failed with code " followed by the
    code when the code is a number other than 0, or by "unknown" when the
    code is absent. *)
Theorem dispatch_failure_message (fuel : nat) (w : nat -> Window) (raw : string)
    (p : Payload) (k : string) (pc : PendingPromise) (st : State) :
  JSON_parse raw = Some (Envelope p) →
  id p = JStr k →
  pendingPromises st !! k = Some pc →
  ¬ success_as_specified p →
  ∃ msg,
    settled (dispatch JSON_parse callbacks fuel w raw st).1
    = (settled st ++ [(promise pc, Rejected (ResponseFailure msg (code p)))])%list
    ∧ (∀ s, errorMessage p = Value s → s ≠ EmptyString → msg = s)
    ∧ (∀ n, no_message p → code p = Value n → n ≠ 0%Z →
         msg = "Flutter request failed with code " +:+ show_number n)
    ∧ (no_message p → absent (code p) → msg = "Flutter request failed with code unknown").
Proof.
  intros Hparse Hid Hk Hfail.
  rewrite (dispatch_response fuel w raw p k pc st Hparse Hid Hk). simpl.
  rewrite <- isSuccess_spec in Hfail.
  destruct (isSuccess p); [contradiction Hfail; reflexivity |].
  unfold responseError. eexists. split; [reflexivity |].
  unfold no_message, absent, failedWithCode. split; [| split].
  - intros s Hs Hne. rewrite Hs. destruct (String.eqb_spec s EmptyString); congruence.
  - intros n Hno Hc Hn0. rewrite Hc.
    destruct (Z.eqb_spec n 0); [contradiction |].
    destruct Hno as [[-> | ->] | ->]; reflexivity.
  - intros Hno [-> | ->]; destruct Hno as [[-> | ->] | ->]; reflexivity.
Qed.

End Properties.

(** ** The correlation table along a run *)

Lemma settlements_same (p : nat) (st st' : State) :
  settled st' = settled st → settlements p st' = settlements p st.
Proof. unfold settlements. intros ->. reflexivity. Qed.

Lemma settlements_snoc (p q : nat) (s : settlement) (st st' : State) :
  settled st' = (settled st ++ [(q, s)])%list →
  settlements p st' = if decide (q = p) then (settlements p st ++ [s])%list
                      else settlements p st.
Proof.
  unfold settlements. intros ->. rewrite filter_app, fmap_app.
  destruct (decide (q = p)) as [Heq | Hne].
  - rewrite filter_cons_True by exact Heq. reflexivity.
  - rewrite filter_cons_False by exact Hne. simpl. apply app_nil_r.
Qed.

Lemma same_requests_refl (st : State) : same_requests st st.
Proof. repeat split. Qed.

Lemma same_requests_trans (st1 st2 st3 : State) :
  same_requests st1 st2 → same_requests st2 st3 → same_requests st1 st3.
Proof.
  unfold same_requests. intros (?&?&?&?&?) (?&?&?&?&?). repeat split; congruence.
Qed.

Lemma consistent_same (ids : list string) (st st' : State) :
  same_requests st st' → consistent ids st → consistent ids st'.
Proof.
  intros (Hp & Ht & Hnt & Hnp & Hs) [].
  split; unfold settlements; rewrite ?Hp, ?Ht, ?Hnt, ?Hnp, ?Hs; assumption.
Qed.

Lemma consistent_more (ids more : list string) (st : State) :
  consistent ids st → consistent (ids ++ more) st.
Proof.
  intros []. split; try assumption.
  intros k pc Hk. apply elem_of_app. left. eauto.
Qed.

Lemma consistent_initial : consistent [] initial.
Proof.
  split; simpl; intros *; try (rewrite lookup_empty; discriminate);
    try (intros H; inversion H; fail).
Qed.

(** One pending entry is settled, its timer cleared and the entry removed:
    the shape shared by the response branch, the timeout callback and
    [rejectPendingPromise]. *)
Lemma consistent_finish (ids : list string) (st st' : State) (k : string)
    (pc : PendingPromise) (s : settlement) :
  consistent ids st →
  pendingPromises st !! k = Some pc →
  is_completion s →
  pendingPromises st' = delete k (pendingPromises st) →
  timers st' = delete (timer pc) (timers st) →
  next_timer st' = next_timer st →
  next_promise st' = next_promise st →
  settled st' = (settled st ++ [(promise pc, s)])%list →
  consistent ids st'.
Proof.
  intros Hc Hk Hs Hp Ht Hnt Hnp Hset.
  destruct (pending_timer _ _ Hc k pc Hk) as (task & Htask & Htid & Htp).
  split; rewrite ?Hp, ?Ht, ?Hnt, ?Hnp.
  - intros k' pc' Hk'. apply lookup_delete_Some in Hk' as [Hne Hk'].
    destruct (pending_timer _ _ Hc k' pc' Hk') as (task' & Htask' & Htid' & Htp').
    exists task'. split; [| split; assumption].
    rewrite lookup_delete_ne; [assumption |].
    intros Heq. rewrite <- Heq in Htask'. congruence.
  - intros n task' Hn. apply lookup_delete_Some in Hn as [Hne Hn].
    pose proof (timer_pending _ _ Hc n task' Hn) as Hpend.
    rewrite lookup_delete_ne; [assumption |].
    intros Heq. rewrite <- Heq in Hpend. rewrite Hk in Hpend.
    injection Hpend as ->. simpl in Hne. congruence.
  - intros n task' Hn. apply lookup_delete_Some in Hn as [_ Hn].
    eapply timer_bound; eassumption.
  - intros k' pc' Hk'. apply lookup_delete_Some in Hk' as [_ Hk'].
    eapply promise_bound; eassumption.
  - intros p s'. rewrite Hset, elem_of_app, list_elem_of_singleton.
    intros [Hin | Heq].
    + eapply settled_bound; eassumption.
    + injection Heq as -> ->. eapply promise_bound; eassumption.
  - intros p s'. rewrite Hset, elem_of_app, list_elem_of_singleton.
    intros [Hin | Heq].
    + eapply settled_kind; eassumption.
    + injection Heq as -> ->. assumption.
  - intros k' pc' Hk'. apply lookup_delete_Some in Hk' as [Hne Hk'].
    rewrite (settlements_snoc _ _ _ _ _ Hset).
    destruct (decide (promise pc = promise pc')) as [Heq | _].
    + exfalso. apply Hne. eapply promise_inj; eauto.
    + eapply pending_unsettled; eassumption.
  - intros p Hlt. rewrite (settlements_snoc _ _ _ _ _ Hset).
    destruct (decide (promise pc = p)) as [Heq | Hne].
    + right. subst p. rewrite (pending_unsettled _ _ Hc k pc Hk). reflexivity.
    + destruct (pending_or_settled _ _ Hc p Hlt) as [(k' & pc' & Hk' & Hpp) | Hone].
      * left. exists k', pc'. split; [| assumption].
        rewrite lookup_delete_ne; [assumption |]. intros ->. congruence.
      * right. assumption.
  - intros k' pc' Hk'. apply lookup_delete_Some in Hk' as [_ Hk'].
    eapply pending_drawn; eassumption.
  - intros k1 k2 pc1 pc2 H1 H2. apply lookup_delete_Some in H1 as [_ H1].
    apply lookup_delete_Some in H2 as [_ H2]. eapply promise_inj; eassumption.
Qed.

Lemma settlements_unissued (ids : list string) (st : State) (p : nat) :
  consistent ids st → (next_promise st ≤ p)%nat → settlements p st = [].
Proof.
  intros Hc Hle. unfold settlements.
  destruct (filter _ (settled st)) as [| [q s] rest] eqn:Hf; [reflexivity |].
  assert (Hin : (q, s) ∈ filter (λ e : nat * settlement, e.1 = p) (settled st))
    by (rewrite Hf; left).
  apply list_elem_of_filter in Hin as [Hq Hin]. simpl in Hq. subst q.
  pose proof (settled_bound _ _ Hc p s Hin). lia.
Qed.

(** A request is registered under a fresh identifier and its send returns. *)
Lemma consistent_issue_sent (ids : list string) (st st' : State) (k : string)
    (task : TimerTask) :
  consistent ids st →
  k ∉ ids →
  t_id task = k →
  t_promise task = next_promise st →
  pendingPromises st'
    = <[k := mkPending (next_promise st) (next_timer st)]> (pendingPromises st) →
  timers st' = <[next_timer st := task]> (timers st) →
  next_timer st' = S (next_timer st) →
  next_promise st' = S (next_promise st) →
  settled st' = settled st →
  consistent (ids ++ [k]) st'.
Proof.
  intros Hc Hfresh Htid Htp Hp Ht Hnt Hnp Hset.
  assert (Hnone : pendingPromises st !! k = None).
  { destruct (pendingPromises st !! k) as [pc |] eqn:Hk; [| reflexivity].
    exfalso. apply Hfresh. eapply pending_drawn; eassumption. }
  assert (Htnone : timers st !! next_timer st = None).
  { destruct (timers st !! next_timer st) as [task' |] eqn:Hn; [| reflexivity].
    pose proof (timer_bound _ _ Hc _ _ Hn). lia. }
  split; rewrite ?Hp, ?Ht, ?Hnt, ?Hnp; unfold settlements; rewrite ?Hset;
    fold (settlements (next_promise st) st).
  - intros k' pc'. rewrite lookup_insert. case_decide as Hk.
    + intros [= <-]. subst k'. simpl. exists task.
      rewrite lookup_insert_eq. auto.
    + intros Hk'. destruct (pending_timer _ _ Hc k' pc' Hk') as (task' & Htask' & ? & ?).
      exists task'. split; [| split; assumption].
      rewrite lookup_insert_ne; [assumption |]. intros Heq.
      rewrite <- Heq in Htask'. congruence.
  - intros n task'. rewrite lookup_insert. case_decide as Hn.
    + intros [= <-]. subst n. rewrite Htid, Htp. apply lookup_insert_eq.
    + intros Hn'. pose proof (timer_pending _ _ Hc n task' Hn') as Hpend.
      rewrite lookup_insert_ne; [assumption |]. intros Heq.
      rewrite <- Heq in Hpend. congruence.
  - intros n task'. rewrite lookup_insert. case_decide as Hn.
    + intros _. lia.
    + intros Hn'. pose proof (timer_bound _ _ Hc n task' Hn'). lia.
  - intros k' pc'. rewrite lookup_insert. case_decide as Hk.
    + intros [= <-]. simpl. lia.
    + intros Hk'. pose proof (promise_bound _ _ Hc k' pc' Hk'). lia.
  - intros p s Hin. pose proof (settled_bound _ _ Hc p s Hin). lia.
  - apply (settled_kind _ _ Hc).
  - intros k' pc'. rewrite lookup_insert. case_decide as Hk.
    + intros [= <-]. simpl. eapply settlements_unissued; [eassumption | lia].
    + apply (pending_unsettled _ _ Hc).
  - intros p Hlt. destruct (decide (p = next_promise st)) as [-> | Hne].
    + left. exists k, (mkPending (next_promise st) (next_timer st)).
      rewrite lookup_insert_eq. auto.
    + destruct (pending_or_settled _ _ Hc p) as [(k' & pc' & Hk' & Hpp) | Hone];
        [lia | | right; assumption].
      left. exists k', pc'. split; [| assumption].
      rewrite lookup_insert_ne; [assumption |]. intros ->. congruence.
  - intros k' pc'. rewrite lookup_insert, elem_of_app, list_elem_of_singleton.
    case_decide as Hk; [auto |]. intros Hk'. left. eapply pending_drawn; eassumption.
  - intros k1 k2 pc1 pc2. rewrite !lookup_insert.
    repeat case_decide; subst; try congruence.
    + intros [= <-] H2. simpl. pose proof (promise_bound _ _ Hc _ _ H2). lia.
    + intros H1 [= <-]. simpl. pose proof (promise_bound _ _ Hc _ _ H1). lia.
    + apply (promise_inj _ _ Hc).
Qed.

(** A request is registered and its send throws: the entry and the timer
    are gone again and the promise is rejected with what was caught. *)
Lemma consistent_issue_failed (ids : list string) (st st' : State) (k : string)
    (e : thrown) :
  consistent ids st →
  pendingPromises st' = pendingPromises st →
  timers st' = timers st →
  next_timer st' = S (next_timer st) →
  next_promise st' = S (next_promise st) →
  settled st' = (settled st ++ [(next_promise st, Rejected (SendError e))])%list →
  consistent (ids ++ [k]) st'.
Proof.
  intros Hc Hp Ht Hnt Hnp Hset.
  apply consistent_more.
  split; rewrite ?Hp, ?Ht, ?Hnt, ?Hnp.
  - apply (pending_timer _ _ Hc).
  - apply (timer_pending _ _ Hc).
  - intros n task Hn. pose proof (timer_bound _ _ Hc n task Hn). lia.
  - intros k' pc' Hk'. pose proof (promise_bound _ _ Hc k' pc' Hk'). lia.
  - intros p s. rewrite Hset, elem_of_app, list_elem_of_singleton.
    intros [Hin | [= -> ->]]; [| lia].
    pose proof (settled_bound _ _ Hc p s Hin). lia.
  - intros p s. rewrite Hset, elem_of_app, list_elem_of_singleton.
    intros [Hin | [= -> ->]]; [| exact I]. eapply settled_kind; eassumption.
  - intros k' pc' Hk'. rewrite (settlements_snoc _ _ _ _ _ Hset).
    pose proof (promise_bound _ _ Hc k' pc' Hk').
    case_decide; [lia |]. eapply pending_unsettled; eassumption.
  - intros p Hlt. rewrite (settlements_snoc _ _ _ _ _ Hset). case_decide as Hp'.
    + right. subst p. rewrite (settlements_unissued ids st) by (assumption || lia).
      reflexivity.
    + apply (pending_or_settled _ _ Hc). lia.
  - apply (pending_drawn _ _ Hc).
  - apply (promise_inj _ _ Hc).
Qed.

Lemma has_lookup {V} (m : gmap string V) (v : jsval) :
  has m v = true → ∃ k x, v = JStr k ∧ m !! k = Some x.
Proof.
  destruct v; simpl; try discriminate.
  destruct (m !! s) as [x |] eqn:Hs; [| discriminate]. eauto.
Qed.

Lemma postInner_same (innerBridge : binding) (m : wire) (st : State) :
  same_requests st (postInner innerBridge m st).1.
Proof. destruct innerBridge; repeat split. Qed.

Lemma postInner_listeners (innerBridge : binding) (m : wire) (st : State) :
  eventListeners (postInner innerBridge m st).1 = eventListeners st.
Proof. destruct innerBridge; reflexivity. Qed.

Section Runs.

Variable JSON_parse : string -> option parsed.
Variable callbacks : CallbackEvent -> jsval -> awaited.

Lemma notifyFailure_same (innerBridge : binding) (p : Payload) (st : State) :
  same_requests st (notifyFailure innerBridge p st).
Proof.
  unfold notifyFailure. pose proof (postInner_same innerBridge (ackFailure p) st) as H.
  destruct (postInner innerBridge (ackFailure p) st) as [st1 [e |]]; exact H.
Qed.

Lemma notify_same (innerBridge : binding) (p : Payload) (st : State)
    (callback : CallbackEvent) :
  same_requests st (notify callbacks innerBridge p st callback).
Proof.
  unfold notify. set (st0 := push_invoked callback (data p) st).
  assert (H0 : same_requests st st0) by repeat split.
  destruct (callbacks callback (data p)) as [result | error |].
  - pose proof (postInner_same innerBridge (ackSuccess p result) st0) as H.
    destruct (postInner innerBridge (ackSuccess p result) st0) as [st1 [e |]];
      simpl in H.
    + eapply same_requests_trans; [exact H0 |].
      eapply same_requests_trans; [exact H | apply notifyFailure_same].
    + eapply same_requests_trans; [exact H0 | exact H].
  - eapply same_requests_trans; [exact H0 | apply notifyFailure_same].
  - exact H0.
Qed.

Lemma notify_all_same (innerBridge : binding) (p : Payload)
    (listeners : list CallbackEvent) (st : State) :
  same_requests st (foldl (notify callbacks innerBridge p) st listeners).
Proof.
  revert st. induction listeners as [| callback rest IH]; intros st; simpl.
  - apply same_requests_refl.
  - eapply same_requests_trans; [apply notify_same | apply IH].
Qed.

Lemma deliver_same (fuel : nat) (w : nat -> Window) (p : Payload) (st : State) :
  same_requests st (deliver callbacks fuel w p st).1.
Proof.
  unfold deliver. destruct (missing _); [destruct (waitForBridgeReady _ _ _) |];
    simpl; try apply notify_all_same. apply same_requests_refl.
Qed.

(** The [try] block of [dispatch] settles nothing: a key found in the
    correlation table is a string, so the branch for a response without a
    valid id is never taken. *)
Lemma validate_same (messageJson : string) (st : State) :
  match validate JSON_parse messageJson st with
  | Abandon st' => same_requests st st'
  | Continue _ st' => same_requests st st'
  end.
Proof.
  unfold validate. destruct (JSON_parse messageJson) as [payload |];
    [| repeat split].
  destruct (negb (truthy_parsed payload) || negb (is_string (member_opt id payload)))
    eqn:Hbad; [| apply same_requests_refl].
  destruct (has (pendingPromises st) (member_opt id payload)) eqn:Hhas.
  - exfalso. simpl in Hhas. apply has_lookup in Hhas as (k & pc & Hid & _).
    destruct payload as [| ? | ? | ? | ? | p]; simpl in *; try discriminate.
    rewrite Hid in Hbad. discriminate.
  - destruct (truthy _ && has _ _); repeat split.
Qed.

Lemma listenMessage_same (act : string) (callback : CallbackEvent) (st : State) :
  same_requests st (listenMessage act callback st).1.
Proof.
  unfold listenMessage. destruct (eventListeners st !! act); simpl;
    repeat case_match; repeat split.
Qed.

Lemma cancel_same (act : string) (st : State) : same_requests st (cancel act st).
Proof. unfold cancel. destruct (eventListeners st !! act); repeat split. Qed.

Lemma complete_consistent (ids : list string) (p : Payload) (st : State) :
  consistent ids st → consistent ids (complete p st).
Proof.
  intros Hc. unfold complete. destruct (id p) as [| | | | k | |]; try assumption.
  destruct (pendingPromises st !! k) as [pc |] eqn:Hk; [| assumption].
  eapply (consistent_finish ids st _ k pc
            (if isSuccess p then Resolved (data p) else Rejected (responseError p)));
    try eassumption; destruct (isSuccess p); try reflexivity; exact I.
Qed.

Lemma dispatch_consistent (ids : list string) (fuel : nat) (w : nat -> Window)
    (messageJson : string) (st : State) :
  consistent ids st →
  consistent ids (dispatch JSON_parse callbacks fuel w messageJson st).1.
Proof.
  intros Hc. unfold dispatch.
  pose proof (validate_same messageJson
                (say Log "FlutterBridgeSDK: Received message from Flutter: " st)) as Hv.
  destruct (validate _ _ _) as [st1 | payload st1].
  - simpl. eapply consistent_same; [| exact Hc].
    eapply same_requests_trans; [| exact Hv]. repeat split.
  - assert (Hc1 : consistent ids st1).
    { eapply consistent_same; [| exact Hc].
      eapply same_requests_trans; [| exact Hv]. repeat split. }
    unfold route. destruct payload as [| ? | ? | ? | ? | p].
    1-5: simpl; try assumption;
        (eapply consistent_same; [| exact Hc1]; repeat split).
    + destruct (has (pendingPromises st1) (id p)); simpl.
      * apply complete_consistent. assumption.
      * destruct (truthy (action p) && has (eventListeners st1) (action p)).
        -- eapply consistent_same; [apply deliver_same | exact Hc1].
        -- destruct (printable (action p) && printable (id p)); simpl; [| exact Hc1].
           eapply consistent_same; [| exact Hc1]. repeat split.
Qed.

Lemma fireTimer_consistent (ids : list string) (n : nat) (st : State) :
  consistent ids st → consistent ids (fireTimer n st).
Proof.
  intros Hc. unfold fireTimer. destruct (timers st !! n) as [task |] eqn:Hn;
    [| assumption].
  pose proof (timer_pending _ _ Hc n task Hn) as Hpend. simpl. rewrite Hpend.
  eapply (consistent_finish ids st _ (t_id task) (mkPending (t_promise task) n)
            (Rejected (TimeoutError (timeoutMessage task))));
    try eassumption; try reflexivity.
Qed.

Lemma issue_consistent (ids : list string) (nativeBridge : binding)
    (nanoid act : string) (dat : jsval) (timeout : Z) (st : State) :
  consistent ids st →
  nanoid ∉ ids →
  consistent (ids ++ [nanoid]) (issue nativeBridge nanoid act dat timeout st).2.
Proof.
  intros Hc Hfresh.
  assert (Hnone : pendingPromises st !! nanoid = None).
  { destruct (pendingPromises st !! nanoid) as [pc |] eqn:Hk; [| reflexivity].
    exfalso. apply Hfresh. eapply pending_drawn; eassumption. }
  assert (Htnone : timers st !! next_timer st = None).
  { destruct (timers st !! next_timer st) as [task' |] eqn:Hn; [| reflexivity].
    pose proof (timer_bound _ _ Hc _ _ Hn). lia. }
  unfold issue.
  destruct nativeBridge as [| | post]; simpl;
    [| | destruct (post _) as [e |]; simpl].
  1, 2, 3: eapply consistent_issue_failed; try exact Hc; simpl; try reflexivity;
    [ rewrite delete_insert_eq; apply delete_id; assumption
    | rewrite delete_insert_eq; apply delete_id; assumption ].
  eapply (consistent_issue_sent ids st _ nanoid
            (mkTask nanoid act timeout (next_promise st)));
    try exact Hc; try assumption; reflexivity.
Qed.

End Runs.

Section Traces.

Variable JSON_parse : string -> option parsed.
Variable callbacks : CallbackEvent -> jsval -> awaited.
Variable fuel : nat.

Lemma step_consistent (ids : list string) (st : State) (c : call) :
  consistent ids st →
  (∀ k, k ∈ drawn [c] → k ∉ ids) →
  consistent (ids ++ drawn [c]) (step JSON_parse callbacks fuel st c).
Proof.
  intros Hc Hfresh. destruct c as [w k act dat timeout | w raw | n | act cb | act];
    simpl; rewrite ?app_nil_r.
  - assert (Hk : k ∉ ids) by (apply Hfresh; simpl; left).
    unfold postMessage.
    destruct (missing _); [destruct (waitForBridgeReady _ _ _) |];
      try (apply (issue_consistent ids _ k act dat timeout st Hc Hk)).
    apply consistent_more. assumption.
  - apply dispatch_consistent. assumption.
  - apply fireTimer_consistent. assumption.
  - eapply consistent_same; [apply listenMessage_same | assumption].
  - eapply consistent_same; [apply cancel_same | assumption].
Qed.

Lemma drawn_app (calls more : list call) :
  drawn (calls ++ more) = (drawn calls ++ drawn more)%list.
Proof.
  induction calls as [| c rest IH]; [reflexivity |].
  destruct c; simpl; rewrite IH; reflexivity.
Qed.

Lemma run_consistent (calls : list call) (ids : list string) (st : State) :
  consistent ids st →
  NoDup (ids ++ drawn calls) →
  consistent (ids ++ drawn calls) (run JSON_parse callbacks fuel st calls).
Proof.
  revert ids st. induction calls as [| c rest IH]; intros ids st Hc Hnd.
  - simpl. rewrite app_nil_r. assumption.
  - change (c :: rest) with ([c] ++ rest)%list in *.
    rewrite drawn_app in *. rewrite app_assoc in *.
    unfold run. rewrite foldl_app. simpl. apply IH; [| assumption].
    apply step_consistent; [assumption |].
    intros k Hk Hin. apply NoDup_app in Hnd as [Hnd _].
    apply NoDup_app in Hnd as (_ & Hdisj & _). eapply Hdisj; eassumption.
Qed.

(** Entries of the correlation table come from [postMessage] alone: an
    entry found after a call was there before it, unless the call drew its
    identifier and created its promise. *)
Lemma dispatch_pending_old (w : nat -> Window) (raw : string) (st : State) (k : string)
    (pc : PendingPromise) :
  pendingPromises (dispatch JSON_parse callbacks fuel w raw st).1 !! k = Some pc →
  pendingPromises st !! k = Some pc.
Proof.
  unfold dispatch.
  pose proof (validate_same JSON_parse raw
                (say Log "FlutterBridgeSDK: Received message from Flutter: " st)) as Hv.
  destruct (validate _ _ _) as [st1 | payload st1]; destruct Hv as (Hp & _);
    simpl in Hp.
  - simpl. rewrite Hp. auto.
  - rewrite <- Hp. unfold route. destruct payload as [| ? | ? | ? | ? | p].
    1-5: simpl; auto.
    + destruct (has (pendingPromises st1) (id p)).
      * simpl. unfold complete. destruct (id p); auto.
        destruct (pendingPromises st1 !! s) eqn:Hs; auto.
        destruct (isSuccess p); simpl; intros H;
          apply lookup_delete_Some in H as [_ H]; exact H.
      * destruct (truthy (action p) && has (eventListeners st1) (action p)).
        -- destruct (deliver_same callbacks fuel w p st1) as (Hd & _).
           rewrite Hd. auto.
        -- destruct (printable (action p) && printable (id p)); simpl; auto.
Qed.

Lemma step_pending_old (st : State) (c : call) (k : string) (pc : PendingPromise) :
  pendingPromises (step JSON_parse callbacks fuel st c) !! k = Some pc →
  k ∉ drawn [c] ∨ (promise pc < next_promise st)%nat →
  pendingPromises st !! k = Some pc.
Proof.
  destruct c as [w k' act dat timeout | w raw | n | act cb | act]; simpl.
  - intros H Hor. assert (Hne : k' ≠ k ∨ (promise pc < next_promise st)%nat).
    { destruct Hor as [Hnot | Hlt]; [left | right; assumption].
      intros ->. apply Hnot. left. }
    clear Hor. revert H. unfold postMessage.
    assert (Hissue : pendingPromises (issue (channel (w 0%nat)) k' act dat timeout st).2
                     !! k = Some pc → pendingPromises st !! k = Some pc).
    { unfold issue. destruct (channel (w 0%nat)) as [| | post]; simpl;
        [| | destruct (post _); simpl].
      1, 2, 3: rewrite delete_insert_eq; intros H;
        apply lookup_delete_Some in H as [_ H]; exact H.
      rewrite lookup_insert. case_decide as Hk; [| auto].
      intros [= <-]. simpl in Hne. destruct Hne; [contradiction | lia]. }
    destruct (missing _); [destruct (waitForBridgeReady _ _ _) |]; auto.
  - intros H _. eapply dispatch_pending_old; eassumption.
  - intros H _. revert H. unfold fireTimer.
    destruct (timers st !! n) as [task |]; [| auto]. simpl.
    destruct (pendingPromises st !! t_id task); simpl; [| auto].
    intros H. apply lookup_delete_Some in H as [_ H]. exact H.
  - intros H _. destruct (listenMessage_same act cb st) as (Hp & _).
    rewrite <- Hp. exact H.
  - intros H _. destruct (cancel_same act st) as (Hp & _).
    rewrite <- Hp. exact H.
Qed.

Lemma step_next_promise (st : State) (c : call) :
  (next_promise st ≤ next_promise (step JSON_parse callbacks fuel st c))%nat.
Proof.
  destruct c as [w k' act dat timeout | w raw | n | act cb | act]; simpl.
  - unfold postMessage, issue.
    destruct (missing _); [destruct (waitForBridgeReady _ _ _) |]; try lia;
      destruct (channel (w 0%nat)) as [| | post]; simpl; try lia;
      destruct (post _); simpl; lia.
  - unfold dispatch.
    pose proof (validate_same JSON_parse raw
                  (say Log "FlutterBridgeSDK: Received message from Flutter: " st)) as Hv.
    destruct (validate _ _ _) as [st1 | payload st1];
      destruct Hv as (_ & _ & _ & Hnp & _); simpl in Hnp; simpl; [lia |].
    rewrite <- Hnp. unfold route. destruct payload as [| ? | ? | ? | ? | p].
    1-5: simpl; lia.
    + destruct (has (pendingPromises st1) (id p)).
      * simpl. unfold complete. destruct (id p); try lia.
        destruct (pendingPromises st1 !! s); [| lia].
        destruct (isSuccess p); simpl; lia.
      * destruct (truthy (action p) && has (eventListeners st1) (action p)).
        -- destruct (deliver_same callbacks fuel w p st1) as (_ & _ & _ & Hd & _).
           rewrite Hd. lia.
        -- destruct (printable (action p) && printable (id p)); simpl; lia.
  - unfold fireTimer. destruct (timers st !! n) as [task |]; [| lia]. simpl.
    destruct (pendingPromises st !! t_id task); simpl; lia.
  - destruct (listenMessage_same act cb st) as (_ & _ & _ & Hp & _). lia.
  - destruct (cancel_same act st) as (_ & _ & _ & Hp & _). lia.
Qed.

Lemma run_pending_old (calls : list call) (st : State) (k : string)
    (pc : PendingPromise) :
  pendingPromises (run JSON_parse callbacks fuel st calls) !! k = Some pc →
  k ∉ drawn calls ∨ (promise pc < next_promise st)%nat →
  pendingPromises st !! k = Some pc.
Proof.
  revert st. induction calls as [| c rest IH]; intros st H Hor; [exact H |].
  change (c :: rest) with ([c] ++ rest)%list in *.
  rewrite drawn_app in Hor. unfold run in H. rewrite foldl_app in H. simpl in H.
  apply (step_pending_old st c k pc).
  - apply IH; [exact H |]. destruct Hor as [Hnot | Hlt].
    + left. intros Hin. apply Hnot. apply elem_of_app. right. exact Hin.
    + right. pose proof (step_next_promise st c). lia.
  - destruct Hor as [Hnot | Hlt]; [left | right; exact Hlt].
    intros Hin. apply Hnot. apply elem_of_app. left. exact Hin.
Qed.

End Traces.

Section Requests.

Variable JSON_parse : string -> option parsed.
Variable callbacks : CallbackEvent -> jsval -> awaited.
Variable fuel : nat.

Lemma run_next_promise (calls : list call) (st : State) :
  (next_promise st ≤ next_promise (run JSON_parse callbacks fuel st calls))%nat.
Proof.
  revert st. induction calls as [| c rest IH]; intros st; [simpl; lia |].
  simpl. pose proof (step_next_promise JSON_parse callbacks fuel st c).
  pose proof (IH (step JSON_parse callbacks fuel st c)). unfold run in *. lia.
Qed.

Lemma postMessage_issue (w : nat -> Window) (k act : string) (dat : jsval) (timeout : Z)
    (st : State) (r : nat * State) :
  postMessage fuel w k act dat timeout st = Some r →
  r = issue (channel (w 0%nat)) k act dat timeout st.
Proof.
  unfold postMessage.
  destruct (missing _); [destruct (waitForBridgeReady _ _ _) |]; congruence.
Qed.

(** What [issue] leaves behind: the new promise is the next handle, and the
    table holds it under the identifier drawn, or holds nothing there. *)
Lemma issue_result (nativeBridge : binding) (k act : string) (dat : jsval) (timeout : Z)
    (st : State) :
  pendingPromises st !! k = None →
  (issue nativeBridge k act dat timeout st).1 = next_promise st
  ∧ next_promise (issue nativeBridge k act dat timeout st).2 = S (next_promise st)
  ∧ ∀ k' pc, pendingPromises (issue nativeBridge k act dat timeout st).2 !! k' = Some pc →
      (k' = k ∧ promise pc = next_promise st) ∨ pendingPromises st !! k' = Some pc.
Proof.
  intros Hnone. unfold issue.
  destruct nativeBridge as [| | post]; simpl; [| | destruct (post _); simpl].
  1, 2, 3: split; [reflexivity | split; [reflexivity |]];
    intros k' pc; rewrite delete_insert_eq; intros H;
    apply lookup_delete_Some in H as [_ H]; right; exact H.
  split; [reflexivity | split; [reflexivity |]].
  intros k' pc. rewrite lookup_insert. case_decide as Hk.
  - intros [= <-]. left. auto.
  - auto.
Qed.

(** C1. Take any run in which [nanoid()] never returns the same identifier
    twice, and any call of [postMessage] in it that gets as far as creating
    its promise [p] under the identifier [k]. At every later point of the
    run, either the request is still pending (the table holds [p] under
    [k], neither [resolve] nor [reject] has been called, and its timer is
    armed, so that the timer callback rejects it with the timeout error and
    removes the entry), or exactly one call of [resolve] or [reject] has
    been made for [p], by a response, a failure response, the timeout or
    the failed send, and then the table has no entry under [k] and no timer
    of the request is armed. No two entries of the table hold the same
    request. *)
Theorem request_completes_exactly_once (before after : list call) (w : nat -> Window)
    (k act : string) (dat : jsval) (timeout : Z) (p : nat) (st1 : State) :
  NoDup (drawn (before ++ PostMessage w k act dat timeout :: after)) →
  postMessage fuel w k act dat timeout (run JSON_parse callbacks fuel initial before)
    = Some (p, st1) →
  let st := run JSON_parse callbacks fuel st1 after in
  ((∃ t task,
      pendingPromises st !! k = Some (mkPending p t)
      ∧ timers st !! t = Some task
      ∧ settlements p st = []
      ∧ settlements p (fireTimer t st) = [Rejected (TimeoutError (timeoutMessage task))]
      ∧ pendingPromises (fireTimer t st) !! k = None)
   ∨ (∃ s,
      settlements p st = [s]
      ∧ is_completion s
      ∧ pendingPromises st !! k = None
      ∧ ∀ n task, timers st !! n = Some task → t_promise task ≠ p))
  ∧ (∀ k1 k2 pc1 pc2,
      pendingPromises st !! k1 = Some pc1 → pendingPromises st !! k2 = Some pc2 →
      promise pc1 = promise pc2 → k1 = k2 ∧ pc1 = pc2).
Proof.
  intros Hnd Hpost st.
  rewrite drawn_app in Hnd. simpl in Hnd.
  set (st0 := run JSON_parse callbacks fuel initial before) in *.
  assert (Hc0 : consistent (drawn before) st0).
  { apply (run_consistent JSON_parse callbacks fuel before [] initial consistent_initial).
    simpl. apply NoDup_app in Hnd as [Hnd _]. exact Hnd. }
  assert (Hk : k ∉ drawn before).
  { apply NoDup_app in Hnd as (_ & Hdisj & _). intros Hin.
    apply (Hdisj k Hin). left. }
  assert (Hafter : k ∉ drawn after).
  { apply NoDup_app in Hnd as (_ & _ & Hnd). apply NoDup_cons in Hnd as [Hnot _].
    exact Hnot. }
  assert (Hnone : pendingPromises st0 !! k = None).
  { destruct (pendingPromises st0 !! k) as [pc |] eqn:E; [| reflexivity].
    exfalso. apply Hk. eapply pending_drawn; eassumption. }
  apply postMessage_issue in Hpost.
  pose proof (issue_consistent (drawn before) (channel (w 0%nat)) k act dat timeout st0
                Hc0 Hk) as Hc1.
  destruct (issue_result (channel (w 0%nat)) k act dat timeout st0 Hnone)
    as (Hp & Hnp & Hentries).
  rewrite <- Hpost in Hc1, Hp, Hnp, Hentries. simpl in Hc1, Hp, Hnp, Hentries.
  assert (Hc : consistent ((drawn before ++ [k]) ++ drawn after) st).
  { apply run_consistent; [exact Hc1 |]. rewrite <- app_assoc. exact Hnd. }
  assert (Hlt : (p < next_promise st)%nat).
  { pose proof (run_next_promise after st1). fold st in H. lia. }
  assert (Hmine : ∀ k' pc, pendingPromises st !! k' = Some pc → promise pc = p →
                           k' = k).
  { intros k' pc Hk' Hpp.
    assert (H1 : pendingPromises st1 !! k' = Some pc).
    { eapply run_pending_old; [exact Hk' |]. right. lia. }
    destruct (Hentries k' pc H1) as [[-> _] | Hold]; [reflexivity |].
    pose proof (promise_bound _ _ Hc0 k' pc Hold). lia. }
  split.
  - destruct (pending_or_settled _ _ Hc p Hlt) as [(k' & pc & Hk' & Hpp) | Hone].
    + left. pose proof (Hmine k' pc Hk' Hpp) as ->.
      destruct (pending_timer _ _ Hc k pc Hk') as (task & Htask & Htid & Htp).
      destruct pc as [p' t]. simpl in *. subst p'.
      exists t, task. split; [exact Hk' |]. split; [exact Htask |].
      pose proof (pending_unsettled _ _ Hc k _ Hk') as Hnil. simpl in Hnil.
      split; [exact Hnil |].
      unfold fireTimer. rewrite Htask. simpl. rewrite Htid, Hk'. simpl.
      split; [| apply lookup_delete_eq].
      unfold settlements in *. simpl. rewrite filter_app, fmap_app, Hnil, Htp.
      rewrite filter_cons_True by reflexivity. reflexivity.
    + right. destruct (settlements p st) as [| s [| ? ?]] eqn:Hs; try discriminate.
      exists s. split; [reflexivity |].
      assert (Hin : (p, s) ∈ settled st).
      { assert (Hs' : s ∈ settlements p st) by (rewrite Hs; left).
        unfold settlements in Hs'. apply list_elem_of_fmap in Hs' as ([q s'] & -> & Hf).
        apply list_elem_of_filter in Hf as [Hq Hf]. simpl in Hq. subst q. exact Hf. }
      split; [eapply settled_kind; eassumption |]. split.
      * destruct (pendingPromises st !! k) as [pc |] eqn:Hpk; [| reflexivity].
        exfalso.
        assert (H1 : pendingPromises st1 !! k = Some pc).
        { eapply run_pending_old; [exact Hpk |]. left. exact Hafter. }
        destruct (Hentries k pc H1) as [[_ Hpp] | Hold]; [| congruence].
        pose proof (pending_unsettled _ _ Hc k pc Hpk) as Hnil.
        rewrite Hpp, <- Hp, Hs in Hnil. discriminate.
      * intros n task Hn Htp.
        pose proof (timer_pending _ _ Hc n task Hn) as Hpend.
        pose proof (pending_unsettled _ _ Hc _ _ Hpend) as Hnil. simpl in Hnil.
        rewrite Htp, Hs in Hnil. discriminate.
  - intros k1 k2 pc1 pc2 H1 H2 Heq.
    pose proof (promise_inj _ _ Hc k1 k2 pc1 pc2 H1 H2 Heq) as ->.
    split; [reflexivity | congruence].
Qed.

End Requests.

Section Correlation.

Variable JSON_parse : string -> option parsed.
Variable callbacks : CallbackEvent -> jsval -> awaited.
Variable fuel : nat.

(** C4. Two requests are pending under distinct identifiers [k1] (issued
    first) and [k2]. When the success response for [k2] is dispatched
    before the one for [k1], the promise stored under [k2] is resolved with
    the data of the response that bears [k2] and the promise stored under
    [k1] with the data of the response that bears [k1]; dispatching the two
    responses in issue order settles the same promises with the same data.
    Both entries are gone afterwards. *)
Theorem responses_matched_by_identifier (w w' : nat -> Window) (raw1 raw2 : string)
    (p1 p2 : Payload) (k1 k2 : string) (pc1 pc2 : PendingPromise) (st : State) :
  k1 ≠ k2 →
  pendingPromises st !! k1 = Some pc1 →
  pendingPromises st !! k2 = Some pc2 →
  JSON_parse raw1 = Some (Envelope p1) → id p1 = JStr k1 → success_as_specified p1 →
  JSON_parse raw2 = Some (Envelope p2) → id p2 = JStr k2 → success_as_specified p2 →
  let reversed :=
    (dispatch JSON_parse callbacks fuel w' raw1
       (dispatch JSON_parse callbacks fuel w raw2 st).1).1 in
  let in_order :=
    (dispatch JSON_parse callbacks fuel w' raw2
       (dispatch JSON_parse callbacks fuel w raw1 st).1).1 in
  settled reversed
    = (settled st ++ [(promise pc2, Resolved (data p2)); (promise pc1, Resolved (data p1))])%list
  ∧ settled in_order
    = (settled st ++ [(promise pc1, Resolved (data p1)); (promise pc2, Resolved (data p2))])%list
  ∧ pendingPromises reversed !! k1 = None
  ∧ pendingPromises reversed !! k2 = None.
Proof.
  intros Hne H1 H2 Hparse1 Hid1 Hok1 Hparse2 Hid2 Hok2.
  apply isSuccess_spec in Hok1, Hok2. simpl.
  rewrite (dispatch_response JSON_parse callbacks fuel w raw2 p2 k2 pc2 st Hparse2 Hid2 H2).
  rewrite (dispatch_response JSON_parse callbacks fuel w raw1 p1 k1 pc1 st Hparse1 Hid1 H1).
  rewrite Hok1, Hok2. simpl.
  rewrite (dispatch_response JSON_parse callbacks fuel w' raw1 p1 k1 pc1);
    [| assumption | assumption | simpl; rewrite lookup_delete_ne by congruence; exact H1].
  rewrite (dispatch_response JSON_parse callbacks fuel w' raw2 p2 k2 pc2);
    [| assumption | assumption | simpl; rewrite lookup_delete_ne by congruence; exact H2].
  rewrite Hok1, Hok2. simpl. rewrite <- !app_assoc. simpl.
  repeat split.
  - apply lookup_delete_eq.
  - rewrite lookup_delete_ne by congruence. apply lookup_delete_eq.
Qed.

End Correlation.

Section Timeouts.

Variable JSON_parse : string -> option parsed.
Variable callbacks : CallbackEvent -> jsval -> awaited.
Variable fuel : nat.

Lemma validate_payload (messageJson : string) (st st' : State) (payload : parsed) :
  validate JSON_parse messageJson st = Continue payload st' →
  JSON_parse messageJson = Some payload.
Proof.
  unfold validate. destruct (JSON_parse messageJson) as [payload' |]; [| discriminate].
  repeat case_match; congruence.
Qed.

(** A pending request stays pending, with its timer armed, across every
    call that is not its response, its timer or a draw of its identifier. *)
Lemma step_still_pending (ids : list string) (st : State) (c : call) (k : string)
    (pc : PendingPromise) (task : TimerTask) :
  consistent ids st →
  pendingPromises st !! k = Some pc →
  timers st !! timer pc = Some task →
  unrelated JSON_parse k (timer pc) c →
  k ∉ drawn [c] →
  pendingPromises (step JSON_parse callbacks fuel st c) !! k = Some pc
  ∧ timers (step JSON_parse callbacks fuel st c) !! timer pc = Some task.
Proof.
  intros Hc Hk Ht Hun Hfresh.
  destruct (pending_timer _ _ Hc k pc Hk) as (task0 & Ht0 & Htid & _).
  assert (task0 = task) as -> by congruence. clear Ht0.
  destruct c as [w k' act dat timeout | w raw | n | act cb | act]; simpl in *.
  - assert (Hne : k' ≠ k) by (intros ->; apply Hfresh; left).
    assert (Hnt : next_timer st ≠ timer pc).
    { pose proof (timer_bound _ _ Hc _ _ Ht). lia. }
    unfold postMessage.
    assert (Hissue :
      pendingPromises (issue (channel (w 0%nat)) k' act dat timeout st).2 !! k = Some pc
      ∧ timers (issue (channel (w 0%nat)) k' act dat timeout st).2 !! timer pc
        = Some task).
    { unfold issue. destruct (channel (w 0%nat)) as [| | post]; simpl;
        [| | destruct (post _); simpl].
      1, 2, 3: rewrite !delete_insert_eq, !lookup_delete_ne by assumption; auto.
      rewrite !lookup_insert_ne by assumption. auto. }
    destruct (missing _); [destruct (waitForBridgeReady _ _ _) |]; auto.
  - unfold dispatch.
    pose proof (validate_same JSON_parse raw
                  (say Log "FlutterBridgeSDK: Received message from Flutter: " st)) as Hv.
    destruct (validate _ _ _) as [st1 | payload st1] eqn:Hval;
      destruct Hv as (Hp & Htm & _); simpl in Hp, Htm.
    + simpl. rewrite Hp, Htm. auto.
    + apply validate_payload in Hval.
      unfold route. destruct payload as [| ? | ? | ? | ? | p].
      1-5: simpl; rewrite ?Hp, ?Htm; auto.
      * specialize (Hun p Hval).
        destruct (has (pendingPromises st1) (id p)) eqn:Hhas.
        -- simpl. unfold complete. apply has_lookup in Hhas as (k' & pc' & Hid & Hk').
           rewrite Hid, Hk'. rewrite Hp in Hk'.
           assert (Hne : k' ≠ k) by congruence.
           assert (Hnt : timer pc' ≠ timer pc).
           { destruct (pending_timer _ _ Hc k' pc' Hk') as (task' & Ht' & Htid' & _).
             intros Heq. rewrite Heq in Ht'. congruence. }
           destruct (isSuccess p); simpl; rewrite Hp, Htm;
             rewrite !lookup_delete_ne by assumption; auto.
        -- destruct (truthy (action p) && has (eventListeners st1) (action p)).
           ++ destruct (deliver_same callbacks fuel w p st1) as (Hd & Hdt & _).
              rewrite Hd, Hdt, Hp, Htm. auto.
           ++ destruct (printable (action p) && printable (id p)); simpl; rewrite Hp, Htm; auto.
  - unfold fireTimer. destruct (timers st !! n) as [task' |] eqn:Hn; [| auto].
    pose proof (timer_pending _ _ Hc n task' Hn) as Hpend. simpl. rewrite Hpend. simpl.
    assert (Hne : t_id task' ≠ k).
    { intros Heq. rewrite Heq, Hk in Hpend. injection Hpend as ->. simpl in Hun.
      congruence. }
    rewrite !lookup_delete_ne by assumption. auto.
  - destruct (listenMessage_same act cb st) as (Hp & Htm & _). rewrite Hp, Htm. auto.
  - destruct (cancel_same act st) as (Hp & Htm & _). rewrite Hp, Htm. auto.
Qed.

Lemma run_still_pending (calls : list call) (ids : list string) (st : State) (k : string)
    (pc : PendingPromise) (task : TimerTask) :
  consistent ids st →
  NoDup (ids ++ drawn calls) →
  pendingPromises st !! k = Some pc →
  timers st !! timer pc = Some task →
  Forall (unrelated JSON_parse k (timer pc)) calls →
  k ∉ drawn calls →
  pendingPromises (run JSON_parse callbacks fuel st calls) !! k = Some pc
  ∧ timers (run JSON_parse callbacks fuel st calls) !! timer pc = Some task.
Proof.
  revert ids st. induction calls as [| c rest IH];
    intros ids st Hc Hnd Hk Ht Hall Hfresh; [auto |].
  apply Forall_cons in Hall as [Hun Hall].
  change (c :: rest) with ([c] ++ rest)%list in *.
  rewrite drawn_app in *. rewrite app_assoc in Hnd.
  unfold run. rewrite foldl_app. simpl.
  assert (Hc' : consistent (ids ++ drawn [c]) (step JSON_parse callbacks fuel st c)).
  { apply step_consistent; [assumption |].
    intros k' Hk' Hin. apply NoDup_app in Hnd as [Hnd _].
    apply NoDup_app in Hnd as (_ & Hdisj & _). eapply Hdisj; eassumption. }
  destruct (step_still_pending ids st c k pc task Hc Hk Ht Hun) as [Hk' Ht'].
  { intros Hin. apply Hfresh. apply elem_of_app. left. exact Hin. }
  apply (IH (ids ++ drawn [c])%list); try assumption.
  intros Hin. apply Hfresh. apply elem_of_app. right. exact Hin.
Qed.

End Timeouts.

Section TimeoutError.

Variable JSON_parse : string -> option parsed.
Variable callbacks : CallbackEvent -> jsval -> awaited.
Variable fuel : nat.

Lemma issue_armed (nativeBridge : binding) (k act : string) (dat : jsval) (timeout : Z)
    (st : State) (pc : PendingPromise) :
  pendingPromises (issue nativeBridge k act dat timeout st).2 !! k = Some pc →
  pc = mkPending (next_promise st) (next_timer st)
  ∧ (issue nativeBridge k act dat timeout st).1 = next_promise st
  ∧ timers (issue nativeBridge k act dat timeout st).2 !! next_timer st
    = Some (mkTask k act timeout (next_promise st)).
Proof.
  unfold issue. destruct nativeBridge as [| | post]; simpl;
    [| | destruct (post _); simpl].
  1, 2, 3: rewrite lookup_delete_eq; discriminate.
  rewrite !lookup_insert_eq. intros [= <-]. auto.
Qed.

(** C5. A request whose send returned stays pending as long as no response
    bearing its identifier is dispatched. When its timer then fires, after
    [timeout] milliseconds, the promise is rejected with the error
    [FlutterBridgeSDK: Request timed out for action "<action>" (id: <id>)
    after <timeout>ms], the entry is removed, and no timer of the request
    is armed any more. *)
Theorem request_times_out (before after : list call) (w : nat -> Window) (k act : string)
    (dat : jsval) (timeout : Z) (p t : nat) (st1 : State) :
  NoDup (drawn (before ++ PostMessage w k act dat timeout :: after)) →
  postMessage fuel w k act dat timeout (run JSON_parse callbacks fuel initial before)
    = Some (p, st1) →
  pendingPromises st1 !! k = Some (mkPending p t) →
  Forall (unrelated JSON_parse k t) after →
  let st := run JSON_parse callbacks fuel st1 after in
  settlements p st = []
  ∧ settled (fireTimer t st)
    = (settled st ++
       [(p, Rejected (TimeoutError
               ("FlutterBridgeSDK: Request timed out for action " +:+ dquote +:+ act
                +:+ dquote +:+ " (id: " +:+ k +:+ ") after " +:+ show_number timeout
                +:+ "ms")))])%list
  ∧ pendingPromises (fireTimer t st) !! k = None
  ∧ timers (fireTimer t st) !! t = None
  ∧ ∀ n task, timers (fireTimer t st) !! n = Some task → t_promise task ≠ p.
Proof.
  intros Hnd Hpost Hsent Hall st.
  rewrite drawn_app in Hnd. simpl in Hnd.
  set (st0 := run JSON_parse callbacks fuel initial before) in *.
  assert (Hc0 : consistent (drawn before) st0).
  { apply (run_consistent JSON_parse callbacks fuel before [] initial consistent_initial).
    simpl. apply NoDup_app in Hnd as [Hnd _]. exact Hnd. }
  assert (Hk : k ∉ drawn before).
  { apply NoDup_app in Hnd as (_ & Hdisj & _). intros Hin.
    apply (Hdisj k Hin). left. }
  assert (Hafter : k ∉ drawn after).
  { apply NoDup_app in Hnd as (_ & _ & Hnd'). apply NoDup_cons in Hnd' as [Hnot _].
    exact Hnot. }
  apply postMessage_issue in Hpost.
  pose proof (issue_consistent (drawn before) (channel (w 0%nat)) k act dat timeout st0
                Hc0 Hk) as Hc1.
  pose proof (issue_armed (channel (w 0%nat)) k act dat timeout st0 (mkPending p t))
    as Harmed.
  rewrite <- Hpost in Hc1, Harmed. simpl in Hc1, Harmed.
  destruct (Harmed Hsent) as (Hpc & Hp & Htask). injection Hpc as Hp' Ht'.
  rewrite <- Ht', <- Hp' in Htask.
  destruct (run_still_pending JSON_parse callbacks fuel after (drawn before ++ [k]) st1 k
              (mkPending p t) (mkTask k act timeout p))
    as [Hpend Htimer]; try assumption.
  { rewrite <- app_assoc. exact Hnd. }
  fold st in Hpend, Htimer. simpl in Htimer.
  assert (Hc : consistent ((drawn before ++ [k]) ++ drawn after) st).
  { apply run_consistent; [exact Hc1 |]. rewrite <- app_assoc. exact Hnd. }
  pose proof (pending_unsettled _ _ Hc k _ Hpend) as Hnil. simpl in Hnil.
  pose proof (fireTimer_consistent _ t st Hc) as Hcf.
  assert (Hfired : fireTimer t st
    = settle p (Rejected (TimeoutError (timeoutMessage (mkTask k act timeout p))))
        (set_pending (delete k) (clearTimeout t st))).
  { unfold fireTimer. rewrite Htimer. simpl. rewrite Hpend. reflexivity. }
  split; [exact Hnil |]. split; [rewrite Hfired; reflexivity |].
  split; [rewrite Hfired; apply lookup_delete_eq |].
  split; [rewrite Hfired; apply lookup_delete_eq |].
  intros n task Hn Htp.
  pose proof (timer_pending _ _ Hcf n task Hn) as Hp1.
  pose proof (pending_unsettled _ _ Hcf _ _ Hp1) as Hnil1. simpl in Hnil1.
  rewrite Htp in Hnil1. revert Hnil1. rewrite Hfired.
  unfold settlements. simpl. rewrite filter_app, fmap_app.
  rewrite filter_cons_True by reflexivity. simpl.
  intros H. apply app_eq_nil in H as [_ H]. discriminate.
Qed.

End TimeoutError.

Section Events.

Variable JSON_parse : string -> option parsed.
Variable callbacks : CallbackEvent -> jsval -> awaited.

Lemma notifyFailure_effects (innerBridge : binding) (p : Payload) (st : State) :
  invoked (notifyFailure innerBridge p st) = invoked st
  ∧ eventListeners (notifyFailure innerBridge p st) = eventListeners st.
Proof. unfold notifyFailure. destruct innerBridge as [| | post]; simpl; auto.
       destruct (post _); auto. Qed.

Lemma notify_effects (innerBridge : binding) (p : Payload) (st : State)
    (callback : CallbackEvent) :
  invoked (notify callbacks innerBridge p st callback)
    = (invoked st ++ [(callback, data p)])%list
  ∧ eventListeners (notify callbacks innerBridge p st callback) = eventListeners st.
Proof.
  unfold notify. destruct (callbacks callback (data p)) as [result | error |].
  - destruct innerBridge as [| | post]; simpl; auto.
    destruct (post _); simpl; auto.
    match goal with |- context [notifyFailure ?b ?q ?s] =>
      destruct (notifyFailure_effects b q s) as [-> ->] end. auto.
  - match goal with |- context [notifyFailure ?b ?q ?s] =>
      destruct (notifyFailure_effects b q s) as [-> ->] end. auto.
  - auto.
Qed.

Lemma notify_all_effects (innerBridge : binding) (p : Payload)
    (listeners : list CallbackEvent) (st : State) :
  invoked (foldl (notify callbacks innerBridge p) st listeners)
    = (invoked st ++ map (λ callback, (callback, data p)) listeners)%list
  ∧ eventListeners (foldl (notify callbacks innerBridge p) st listeners)
    = eventListeners st.
Proof.
  revert st. induction listeners as [| callback rest IH]; intros st; simpl.
  - rewrite app_nil_r. auto.
  - destruct (IH (notify callbacks innerBridge p st callback)) as [-> ->].
    destruct (notify_effects innerBridge p st callback) as [-> ->].
    rewrite <- app_assoc. auto.
Qed.

(** With the inner channel in hand and its [postMessage] returning, every
    callback is answered by the acknowledgement of its own outcome. *)
Lemma notify_all_acks (post : wire -> option jsval) (p : Payload)
    (listeners : list CallbackEvent) (st : State) :
  (∀ m, post m = None) →
  acks (foldl (notify callbacks (Bridge post) p) st listeners)
    = (acks st ++ omap (acknowledgement callbacks p) listeners)%list.
Proof.
  intros Hpost. revert st. induction listeners as [| callback rest IH]; intros st; simpl.
  - rewrite app_nil_r. reflexivity.
  - rewrite IH. unfold notify, notifyFailure, acknowledgement, ackSuccess, ackFailure.
    destruct (callbacks callback (data p)) as [result | error |]; simpl;
      rewrite ?Hpost; simpl; rewrite <- ?app_assoc; reflexivity.
Qed.

(** With [innerBridge] undefined, the optional call is skipped every time. *)
Lemma notify_all_unbound (p : Payload) (listeners : list CallbackEvent) (st : State) :
  acks (foldl (notify callbacks Unbound p) st listeners) = acks st.
Proof.
  revert st. induction listeners as [| callback rest IH]; intros st; simpl;
    [reflexivity |].
  rewrite IH. unfold notify. destruct (callbacks callback (data p)); reflexivity.
Qed.

(** A message for a registered action that is not the response of a
    pending request goes to the event branch; on the way only the console
    is written. *)
Lemma dispatch_event (fuel : nat) (w : nat -> Window) (raw : string) (p : Payload)
    (a : string) (listeners : list CallbackEvent) (st : State) :
  JSON_parse raw = Some (Envelope p) →
  action p = JStr a →
  a ≠ EmptyString →
  eventListeners st !! a = Some listeners →
  has (pendingPromises st) (id p) = false →
  ∃ st1,
    dispatch JSON_parse callbacks fuel w raw st = deliver callbacks fuel w p st1
    ∧ same_requests st st1
    ∧ eventListeners st1 = eventListeners st
    ∧ acks st1 = acks st
    ∧ invoked st1 = invoked st.
Proof.
  intros Hparse Hact Hne Hreg Hnot.
  assert (Htruthy : truthy (action p) = true).
  { rewrite Hact. simpl. destruct (String.eqb_spec a EmptyString); [contradiction | auto]. }
  assert (Hhas : has (eventListeners st) (action p) = true).
  { rewrite Hact. simpl. rewrite Hreg. reflexivity. }
  unfold dispatch, validate. rewrite Hparse. simpl.
  rewrite Hnot, Htruthy, Hhas. simpl.
  destruct (is_string (id p)); simpl; rewrite Hnot, Htruthy, Hhas; simpl;
    eexists; (split; [reflexivity | repeat split]).
Qed.

End Events.

Section Acknowledgements.

Variable JSON_parse : string -> option parsed.
Variable callbacks : CallbackEvent -> jsval -> awaited.

(** X27. An event for a registered action is dispatched while the inner
    channel is in place and its [postMessage] returns. Then every callback
    registered for the action is called with the event's data and the host
    is sent one acknowledgement per settled callback, decided by that
    callback alone: [{action, data: r, id, code: 200}] when its promise
    fulfils with [r], [{action, id, code: 500}] when it rejects, with the
    [id] and [action] of the event. The method returns, and neither the
    registry nor the correlation table changes, so that a rejecting
    callback leaves the dispatch of every other registration as it was. *)
Theorem event_acknowledged (fuel : nat) (w : nat -> Window) (raw : string) (p : Payload)
    (a : string) (listeners : list CallbackEvent) (post : wire -> option jsval)
    (st : State) :
  JSON_parse raw = Some (Envelope p) →
  action p = JStr a →
  a ≠ EmptyString →
  eventListeners st !! a = Some listeners →
  has (pendingPromises st) (id p) = false →
  innerChannel (w 0%nat) = Bridge post →
  (∀ m, post m = None) →
  let st' := (dispatch JSON_parse callbacks fuel w raw st).1 in
  (dispatch JSON_parse callbacks fuel w raw st).2 = Returns
  ∧ acks st' = (acks st ++ omap (acknowledgement callbacks p) listeners)%list
  ∧ (∀ callback r, listeners = [callback] → callbacks callback (data p) = Fulfilled r →
       acks st' = (acks st ++
         [[("action", JStr a); ("data", r); ("id", id p); ("code", JNum 200)]])%list)
  ∧ (∀ callback e, listeners = [callback] → callbacks callback (data p) = Failed e →
       acks st' = (acks st ++
         [[("action", JStr a); ("id", id p); ("code", JNum 500)]])%list)
  ∧ invoked st' = (invoked st ++ map (λ callback, (callback, data p)) listeners)%list
  ∧ eventListeners st' = eventListeners st
  ∧ pendingPromises st' = pendingPromises st.
Proof.
  intros Hparse Hact Hne Hreg Hnot Hinner Hpost st'. subst st'.
  destruct (dispatch_event JSON_parse callbacks fuel w raw p a listeners st
              Hparse Hact Hne Hreg Hnot) as (st1 & -> & (Hp & _) & Hl & Ha & Hi).
  unfold deliver. rewrite Hinner. simpl. rewrite Hact. simpl. rewrite Hl, Hreg. simpl.
  destruct (notify_all_effects callbacks (Bridge post) p listeners st1) as [-> ->].
  rewrite (notify_all_acks callbacks post p listeners st1 Hpost).
  destruct (notify_all_same callbacks (Bridge post) p listeners st1) as (-> & _).
  rewrite Ha, Hi, Hl, Hp. repeat split.
  - intros callback r -> Hr. simpl. unfold acknowledgement. rewrite Hr, Hact.
    reflexivity.
  - intros callback e -> He. simpl. unfold acknowledgement. rewrite He, Hact.
    reflexivity.
Qed.

(** The inner channel read by [dispatch] is the one present at the call:
    when it is missing then, no acknowledgement is ever sent for the event,
    whatever the page looks like once the wait is over. *)
Lemma dispatch_missing_inner_channel (fuel : nat) (w : nat -> Window) (raw : string)
    (st : State) :
  innerChannel (w 0%nat) = Unbound →
  acks (dispatch JSON_parse callbacks fuel w raw st).1 = acks st.
Proof.
  intros Hinner. unfold dispatch, validate.
  destruct (JSON_parse raw) as [payload |]; [| reflexivity].
  assert (Hroute : ∀ st1, acks st1 = acks st →
            acks (route callbacks fuel w payload st1).1 = acks st).
  { intros st1 H1. unfold route. destruct payload as [| ? | ? | ? | ? | p].
    1-5: simpl; exact H1.
    - destruct (has (pendingPromises st1) (id p)).
      + simpl. unfold complete. destruct (id p); try exact H1.
        destruct (pendingPromises st1 !! s); [| exact H1].
        destruct (isSuccess p); exact H1.
      + destruct (truthy (action p) && has (eventListeners st1) (action p));
          [| destruct (printable (action p) && printable (id p)); exact H1].
        unfold deliver. rewrite Hinner. simpl.
        destruct (waitForBridgeReady fuel w 0); simpl; [| exact H1].
        rewrite notify_all_unbound. exact H1. }
  destruct (negb (truthy_parsed payload) || negb (is_string (member_opt id payload))).
  - destruct (has (pendingPromises _) (member_opt id payload)).
    + apply Hroute. unfold rejectPendingPromise.
      destruct (member_opt id payload); try reflexivity.
      simpl. destruct (pendingPromises st !! s); reflexivity.
    + destruct (truthy _ && has _ _); [apply Hroute |]; reflexivity.
  - apply Hroute. reflexivity.
Qed.

End Acknowledgements.

Section Registry.

Variable JSON_parse : string -> option parsed.
Variable callbacks : CallbackEvent -> jsval -> awaited.
Variable fuel : nat.

(** Either the callback was registered already and the registry is left
    alone, or the action ends up with this callback and no other. *)
Lemma listenMessage_registry (act : string) (callback : CallbackEvent) (st : State) :
  (∃ listeners, eventListeners st !! act = Some listeners ∧ callback ∈ listeners
     ∧ eventListeners (listenMessage act callback st).1 = eventListeners st)
  ∨ eventListeners (listenMessage act callback st).1
    = <[act := [callback]]> (eventListeners st).
Proof.
  unfold listenMessage. destruct (eventListeners st !! act) as [listeners |] eqn:Hreg.
  - rewrite Hreg. simpl.
    destruct (bool_decide_reflect (callback ∈ listeners)) as [Hin | Hnot].
    + left. exists listeners. auto.
    + right. destruct (0 <? length listeners)%nat eqn:Hlen; simpl.
      * rewrite lookup_insert_eq. simpl. apply insert_insert_eq.
      * rewrite Hreg. simpl. apply Nat.ltb_ge in Hlen.
        destruct listeners; [reflexivity | simpl in Hlen; lia].
  - right. simpl. rewrite lookup_insert_eq. simpl.
    rewrite lookup_insert_eq. simpl. apply insert_insert_eq.
Qed.

Lemma listenMessage_single (act : string) (callback : CallbackEvent) (st : State) :
  single_listener st → single_listener (listenMessage act callback st).1.
Proof.
  intros Hs. unfold single_listener.
  destruct (listenMessage_registry act callback st)
    as [(listeners & _ & _ & ->) | ->]; [exact Hs |].
  intros act' listeners'. rewrite lookup_insert. case_decide.
  - intros [= <-]. reflexivity.
  - apply Hs.
Qed.

Lemma cancel_registry (act : string) (st : State) :
  eventListeners (cancel act st) = delete act (eventListeners st).
Proof.
  unfold cancel. destruct (eventListeners st !! act) eqn:Hreg; simpl; [reflexivity |].
  symmetry. apply delete_id. exact Hreg.
Qed.

Lemma dispatch_listeners (w : nat -> Window) (raw : string) (st : State) :
  eventListeners (dispatch JSON_parse callbacks fuel w raw st).1 = eventListeners st.
Proof.
  unfold dispatch, validate.
  destruct (JSON_parse raw) as [payload |]; [| reflexivity].
  assert (Hroute : ∀ st1, eventListeners st1 = eventListeners st →
            eventListeners (route callbacks fuel w payload st1).1 = eventListeners st).
  { intros st1 H1. unfold route. destruct payload as [| ? | ? | ? | ? | p].
    1-5: simpl; exact H1.
    - destruct (has (pendingPromises st1) (id p)).
      + simpl. unfold complete. destruct (id p); try exact H1.
        destruct (pendingPromises st1 !! s); [| exact H1].
        destruct (isSuccess p); exact H1.
      + destruct (truthy (action p) && has (eventListeners st1) (action p));
          [| destruct (printable (action p) && printable (id p)); exact H1].
        unfold deliver. destruct (missing _); [destruct (waitForBridgeReady _ _ _) |];
          simpl; try exact H1;
          match goal with |- context [foldl (notify ?c ?b ?q) ?s ?l] =>
            destruct (notify_all_effects c b q l s) as [_ ->] end; exact H1. }
  destruct (negb (truthy_parsed payload) || negb (is_string (member_opt id payload))).
  - destruct (has (pendingPromises _) (member_opt id payload)).
    + apply Hroute. unfold rejectPendingPromise.
      destruct (member_opt id payload); try reflexivity.
      simpl. destruct (pendingPromises st !! s); reflexivity.
    + destruct (truthy _ && has _ _); [apply Hroute |]; reflexivity.
  - apply Hroute. reflexivity.
Qed.

(** Only [listenMessage] and [cancel] for an action change what is
    registered for it. *)
Lemma step_registration (act : string) (st : State) (c : call) :
  keeps_registration act c →
  eventListeners (step JSON_parse callbacks fuel st c) !! act = eventListeners st !! act.
Proof.
  destruct c as [w k a dat timeout | w raw | n | a cb | a]; simpl; intros Hkeep.
  - unfold postMessage, issue.
    destruct (missing _); [destruct (waitForBridgeReady _ _ _) |]; try reflexivity;
      destruct (channel (w 0%nat)) as [| | post]; simpl; try reflexivity;
      destruct (post _); reflexivity.
  - rewrite dispatch_listeners. reflexivity.
  - unfold fireTimer. destruct (timers st !! n); [| reflexivity]. simpl.
    destruct (pendingPromises st !! _); reflexivity.
  - destruct (listenMessage_registry a cb st) as [(listeners & _ & _ & ->) | ->];
      [reflexivity |]. apply lookup_insert_ne. exact Hkeep.
  - rewrite cancel_registry. apply lookup_delete_ne. exact Hkeep.
Qed.

Lemma step_single (st : State) (c : call) :
  single_listener st → single_listener (step JSON_parse callbacks fuel st c).
Proof.
  intros Hs. unfold single_listener.
  destruct c as [w k a dat timeout | w raw | n | a cb | a].
  1, 2, 3: intros act listeners;
    rewrite step_registration by exact I; apply Hs.
  - apply (listenMessage_single a cb st Hs).
  - simpl. intros act listeners. rewrite cancel_registry.
    intros H. apply lookup_delete_Some in H as [_ H]. eapply Hs. exact H.
Qed.

Lemma run_single (calls : list call) (st : State) :
  single_listener st → single_listener (run JSON_parse callbacks fuel st calls).
Proof.
  revert st. induction calls as [| c rest IH]; intros st Hs; [exact Hs |].
  simpl. apply IH. apply step_single. exact Hs.
Qed.

Lemma run_registration (act : string) (calls : list call) (st : State) :
  Forall (keeps_registration act) calls →
  eventListeners (run JSON_parse callbacks fuel st calls) !! act
  = eventListeners st !! act.
Proof.
  revert st. induction calls as [| c rest IH]; intros st Hall; [reflexivity |].
  apply Forall_cons in Hall as [Hc Hall].
  change (run JSON_parse callbacks fuel st (c :: rest))
    with (run JSON_parse callbacks fuel (step JSON_parse callbacks fuel st c) rest).
  rewrite IH by exact Hall. apply step_registration. exact Hc.
Qed.

Lemma single_listener_initial : single_listener initial.
Proof. intros act listeners. simpl. rewrite lookup_empty. discriminate. Qed.

End Registry.

Section Listeners.

Variable JSON_parse : string -> option parsed.
Variable callbacks : CallbackEvent -> jsval -> awaited.
Variable fuel : nat.

(** C9. Along every run each action of the registry holds exactly one
    callback. When [listenMessage] is called for an action that holds
    [first] with a different callback [second], a warning is written and
    the action holds [second] alone; it keeps doing so until the next
    [listenMessage] or [cancel] for that action, and every event dispatched
    for the action in the meantime calls [second] and nothing else (or no
    callback at all while the method is still waiting for the channels). *)
Theorem second_listener_evicts_first (calls after : list call) (act : string)
    (first second : CallbackEvent) (w : nat -> Window) (raw : string) (p : Payload) :
  let st := run JSON_parse callbacks fuel initial calls in
  let st1 := (listenMessage act second st).1 in
  let st2 := run JSON_parse callbacks fuel st1 after in
  eventListeners st !! act = Some [first] →
  first ≠ second →
  Forall (keeps_registration act) after →
  JSON_parse raw = Some (Envelope p) →
  action p = JStr act →
  act ≠ EmptyString →
  has (pendingPromises st2) (id p) = false →
  single_listener st ∧ single_listener st1 ∧ single_listener st2
  ∧ eventListeners st1 !! act = Some [second]
  ∧ console st1
    = (console st ++
       [(Warn, "FlutterBridgeSDK: Listener already exists,the old one will be replaced with the new one.");
        (Log, "FlutterBridgeSDK: Listener registered for action ")])%list
  ∧ eventListeners st2 !! act = Some [second]
  ∧ invoked (dispatch JSON_parse callbacks fuel w raw st2).1
    = (invoked st2 ++
       match (dispatch JSON_parse callbacks fuel w raw st2).2 with
       | Returns => [(second, data p)]
       | _ => []
       end)%list.
Proof.
  intros st st1 st2 Hreg Hne Hkeep Hparse Hact Hact0 Hnot.
  assert (Hs : single_listener st)
    by (apply run_single, single_listener_initial).
  assert (Hs1 : single_listener st1) by (apply listenMessage_single, Hs).
  assert (Hs2 : single_listener st2) by (apply run_single, Hs1).
  assert (Hfresh : bool_decide (second ∈ [first]) = false).
  { apply bool_decide_eq_false. intros Hin. apply list_elem_of_singleton in Hin.
    congruence. }
  assert (H1 : eventListeners st1 !! act = Some [second]
               ∧ console st1
                 = (console st ++
                    [(Warn, "FlutterBridgeSDK: Listener already exists,the old one will be replaced with the new one.");
                     (Log, "FlutterBridgeSDK: Listener registered for action ")])%list).
  { subst st1. unfold listenMessage. rewrite Hreg. simpl. rewrite Hreg. simpl.
    rewrite Hfresh. simpl. rewrite !lookup_insert_eq. simpl.
    rewrite <- app_assoc. auto. }
  destruct H1 as [Hreg1 Hcons1].
  assert (Hreg2 : eventListeners st2 !! act = Some [second]).
  { subst st2. rewrite run_registration by exact Hkeep. exact Hreg1. }
  repeat (split; [assumption |]).
  destruct (dispatch_event JSON_parse callbacks fuel w raw p act [second] st2
              Hparse Hact Hact0 Hreg2 Hnot) as (st3 & -> & _ & Hl & _ & Hi).
  unfold deliver. rewrite Hact. simpl. rewrite Hl, Hreg2. simpl.
  destruct (missing _); [destruct (waitForBridgeReady _ _ _) |]; simpl;
    rewrite ?app_nil_r; try exact Hi;
    match goal with |- context [notify ?c ?b ?q ?s ?h] =>
      destruct (notify_effects c b q s h) as [-> _] end; rewrite Hi; reflexivity.
Qed.

(** C10, as the code has it. Registering for an action a callback that the
    action already holds leaves the registry, the correlation table and
    the timers as they are and writes a warning. The call returns the
    same [cancel] as the first registration did: invoking it removes what
    is registered for the action. *)
Theorem duplicate_listener_keeps_registration (act : string) (callback : CallbackEvent)
    (listeners : list CallbackEvent) (st : State) :
  eventListeners st !! act = Some listeners →
  callback ∈ listeners →
  eventListeners (listenMessage act callback st).1 = eventListeners st
  ∧ console (listenMessage act callback st).1
    = (console st
       ++ [(Warn, "FlutterBridgeSDK: Listener already registered for action ")])%list
  ∧ same_requests st (listenMessage act callback st).1
  ∧ (listenMessage act callback st).2 = cancel act
  ∧ (∀ st0 callback0, (listenMessage act callback0 st0).2 = cancel act)
  ∧ eventListeners
      ((listenMessage act callback st).2 (listenMessage act callback st).1) !! act
    = None.
Proof.
  intros Hreg Hin.
  assert (Hcancel : ∀ st0 callback0, (listenMessage act callback0 st0).2 = cancel act).
  { intros st0 callback0. unfold listenMessage. destruct (bool_decide _); reflexivity. }
  split; [| split; [| split; [| split; [| split]]]].
  - unfold listenMessage. rewrite Hreg. simpl. rewrite Hreg. simpl.
    rewrite (bool_decide_eq_true_2 _ Hin). reflexivity.
  - unfold listenMessage. rewrite Hreg. simpl. rewrite Hreg. simpl.
    rewrite (bool_decide_eq_true_2 _ Hin). reflexivity.
  - apply listenMessage_same.
  - apply Hcancel.
  - exact Hcancel.
  - rewrite Hcancel, cancel_registry. apply lookup_delete_eq.
Qed.

End Listeners.

(** ** The methods on the sample page *)

Module Runs.

Import Sample.

(** The response [{"id":"X","code":500,"errorMessage":"bad"}] rejects the
    pending request with message "bad" and code 500. *)
Example dispatch_bad :
  settled (dispatch parse handlers 0 ready raw_bad one_pending).1
  = [(0%nat, Rejected (ResponseFailure "bad" (Value 500%Z)))].
Proof. vm_compute. reflexivity. Qed.

(** C3, counterexample. The failure response
    [{"id":"X","code":500,"errorMessage":<empty string>}] carries an [errorMessage],
    yet the rejection does not have it as its message: the empty string is
    falsy, and the message is the text built from the code. *)
Lemma empty_errorMessage_replaced :
  settled (dispatch parse handlers 0 ready raw_empty_message one_pending).1
  = [(0%nat, Rejected (ResponseFailure "Flutter request failed with code 500"
                         (Value 500%Z)))]
  ∧ parse raw_empty_message = Some (Envelope empty_message)
  ∧ errorMessage empty_message = Value EmptyString
  ∧ ¬ message_as_specified empty_message "Flutter request failed with code 500".
Proof.
  split; [vm_compute; reflexivity |]. split; [reflexivity |]. split; [reflexivity |].
  unfold message_as_specified. simpl. discriminate.
Qed.

(** The failure response [{"id":"X","code":0}] has a code, and the message
    says "unknown". *)
Example code_zero_unknown :
  settled (dispatch parse handlers 0 ready raw_code_zero one_pending).1
  = [(0%nat, Rejected (ResponseFailure "Flutter request failed with code unknown"
                         (Value 0%Z)))].
Proof. vm_compute. reflexivity. Qed.

(** C7, at the failing input. The callback for "login" is registered and
    the event [{"action":"login","id":"e1","data":7}] arrives while the
    inner channel is not on the page yet; the channel is there at the first
    re-check, 100ms later. [dispatch] waits, calls the callback, and
    returns, but it sends no acknowledgement: the object it calls is the
    one it read before the wait. On a page that has the channel from the
    start the same event is acknowledged with code 200. *)
Lemma late_inner_channel_not_acknowledged :
  isReady (innerChannel (late_inner 0)) = false
  ∧ waitForBridgeReady 3 late_inner 0 = Some 1%nat
  ∧ isReady (innerChannel (late_inner 1)) = true
  ∧ (dispatch parse handlers 3 late_inner raw_event listening).2 = Returns
  ∧ invoked (dispatch parse handlers 3 late_inner raw_event listening).1
    = [(1%nat, JNum 7)]
  ∧ acks (dispatch parse handlers 3 late_inner raw_event listening).1 = []
  ∧ acks (dispatch parse handlers 3 ready raw_event listening).1
    = [[("action", JStr "login"); ("data", JNum 14); ("id", JStr "e1");
        ("code", JNum 200)]].
Proof. vm_compute. repeat split. Qed.

(** C6, at the failing input. The event
    [{"action":"login","id":"e1","data":7}] is dispatched while the inner
    channel is not on the page yet; it is there at the first re-check. With
    the callback that fulfils with 14 registered, the acknowledgement
    [{action, data: 14, id, code: 200}] is owed, and with the callback that
    rejects, [{action, id, code: 500}]: [dispatch] sends neither. It returns
    with nothing written to the inner channel, where on a page that has the
    channel from the start it sends the one and the other. *)
Lemma late_inner_channel_outcome_unreported :
  handlers 1%nat (JNum 7) = Fulfilled (JNum 14)
  ∧ handlers 2%nat (JNum 7) = Failed (JStr "boom")
  ∧ waitForBridgeReady 3 late_inner 0 = Some 1%nat
  ∧ (dispatch parse handlers 3 late_inner raw_event listening).2 = Returns
  ∧ acks (dispatch parse handlers 3 late_inner raw_event listening).1 = []
  ∧ (dispatch parse handlers 3 late_inner raw_event listening_rejecting).2 = Returns
  ∧ acks (dispatch parse handlers 3 late_inner raw_event listening_rejecting).1 = []
  ∧ acks (dispatch parse handlers 3 ready raw_event listening).1
    = [[("action", JStr "login"); ("data", JNum 14); ("id", JStr "e1");
        ("code", JNum 200)]]
  ∧ acks (dispatch parse handlers 3 ready raw_event listening_rejecting).1
    = [[("action", JStr "login"); ("id", JStr "e1"); ("code", JNum 500)]].
Proof. vm_compute. repeat split. Qed.

(** The earlier [dispatch] on the same event, on a page without the inner
    channel: it does not wait, and it sends nothing either. *)
Example earlier_dispatch_not_acknowledged :
  (Earlier.dispatch parse handlers (late_inner 0) raw_event listening).2 = Returns
  ∧ invoked (Earlier.dispatch parse handlers (late_inner 0) raw_event listening).1
    = [(1%nat, JNum 7)]
  ∧ acks (Earlier.dispatch parse handlers (late_inner 0) raw_event listening).1 = [].
Proof. vm_compute. repeat split. Qed.

(** The same slip in [postMessage]: called before the request channel is
    injected, it waits for the channel and then rejects with the
    [TypeError] of calling [postMessage] on [undefined]; nothing is sent. *)
Example late_channel_send_fails :
  (snd <$> postMessage 3 late_channel "X" "getUser" JUndefined 15000 initial)
  = Some (mkState ∅ ∅ ∅ 1%nat 1%nat
            [(0%nat, Rejected (SendError (TypeError "Cannot read properties of undefined")))]
            [] []
            [(Log, "FlutterBridgeSDK: Sending message to Flutter (id: ");
             (Err, "FlutterBridgeSDK: Error sending message (id: ")]
            []).
Proof. vm_compute. reflexivity. Qed.

(** C10, counterexample. Callback 1 is registered for "login" twice; the
    function returned by the second call is not without effect: invoking
    it empties the registry, and the registration is lost. *)
Lemma duplicate_cancel_removes_registration :
  eventListeners (listenMessage "login" 1%nat listening).1 !! "login" = Some [1%nat]
  ∧ eventListeners
      ((listenMessage "login" 1%nat listening).2 (listenMessage "login" 1%nat listening).1)
      !! "login" = None
  ∧ ¬ leaves_registry (listenMessage "login" 1%nat listening).2
        (listenMessage "login" 1%nat listening).1.
Proof.
  assert (H1 : eventListeners (listenMessage "login" 1%nat listening).1 !! "login"
               = Some [1%nat]) by (vm_compute; reflexivity).
  assert (H2 : eventListeners
                 ((listenMessage "login" 1%nat listening).2
                    (listenMessage "login" 1%nat listening).1) !! "login" = None)
    by (vm_compute; reflexivity).
  split; [exact H1 | split; [exact H2 |]].
  unfold leaves_registry. intros Heq. rewrite Heq in H2.
  unfold CallbackEvent in *. congruence.
Qed.

End Runs.

(** ** The theorems at concrete inputs *)

Module Witness.

Import Sample.

Lemma dispatch_unparseable_no_change_witness :
  parse "{oops" = None
  ∧ (dispatch parse handlers 0 ready "{oops" one_pending).2 = Returns
  ∧ pendingPromises (dispatch parse handlers 0 ready "{oops" one_pending).1
    = pendingPromises one_pending.
Proof.
  split; [reflexivity |].
  pose proof (dispatch_unparseable_no_change parse handlers 0 ready "{oops" one_pending
                eq_refl) as H.
  split; apply H.
Defined.

Lemma dispatch_resolves_iff_success_witness :
  settled (dispatch parse handlers 0 ready raw_id_only one_pending).1
  = (settled one_pending ++ [(0%nat, Resolved JUndefined)])%list.
Proof.
  apply (dispatch_resolves_iff_success parse handlers 0 ready raw_id_only id_only "X"
           (mkPending 0 0) one_pending); reflexivity.
Defined.

Lemma dispatch_failure_message_witness :
  ∃ msg,
    settled (dispatch parse handlers 0 ready raw_bad one_pending).1
    = (settled one_pending ++ [(0%nat, Rejected (ResponseFailure msg (Value 500%Z)))])%list
    ∧ (∀ s, Value "bad" = Value s → s ≠ EmptyString → msg = s).
Proof.
  destruct (dispatch_failure_message parse handlers 0 ready raw_bad bad "X"
              (mkPending 0 0) one_pending) as (msg & Hset & Hmsg & _);
    try reflexivity.
  - unfold success_as_specified, absent. simpl.
    intros [(n & Hn & Hr) | [[H | H] _]]; try discriminate.
    injection Hn as <-. lia.
  - exists msg. split; [exact Hset | exact Hmsg].
Defined.

Lemma responses_matched_by_identifier_witness :
  settled (dispatch parse handlers 0 ready (raw_ok "X" 1)
             (dispatch parse handlers 0 ready (raw_ok "Y" 2) two_pending).1).1
  = (settled two_pending ++ [(1%nat, Resolved (JNum 2)); (0%nat, Resolved (JNum 1))])%list.
Proof.
  apply (responses_matched_by_identifier parse handlers 0 ready ready
           (raw_ok "X" 1) (raw_ok "Y" 2) (ok "X" 1) (ok "Y" 2) "X" "Y"
           (mkPending 0 0) (mkPending 1 1) two_pending);
    try reflexivity; try discriminate;
    (left; exists 200%Z; split; [reflexivity | lia]).
Defined.

Lemma request_completes_exactly_once_witness :
  ∃ s, settlements 0
         (run parse handlers 0 one_pending [Dispatch ready (raw_ok "X" 1)]) = [s]
       ∧ is_completion s.
Proof.
  assert (Hnd : NoDup (drawn ([] ++ PostMessage ready "X" "getUser" JUndefined 15000
                                 :: [Dispatch ready (raw_ok "X" 1)])))
    by (simpl; apply NoDup_singleton).
  destruct (request_completes_exactly_once parse handlers 0 []
              [Dispatch ready (raw_ok "X" 1)] ready "X" "getUser" JUndefined 15000
              0%nat one_pending Hnd eq_refl)
    as [[(t & task & Hk & _) | (s & Hs & Hkind & _)] _].
  - vm_compute in Hk. discriminate.
  - exists s. split; assumption.
Defined.

Lemma request_times_out_witness :
  settled (fireTimer 0
             (run parse handlers 0 one_pending
                [ListenMessage "login" 1%nat; Dispatch ready (raw_ok "Y" 2)]))
  = [(0%nat, Rejected (TimeoutError
        ("FlutterBridgeSDK: Request timed out for action " +:+ dquote +:+ "getUser"
         +:+ dquote +:+ " (id: X) after 15000ms")))].
Proof.
  assert (Hnd : NoDup (drawn ([] ++ PostMessage ready "X" "getUser" JUndefined 15000
                                 :: [ListenMessage "login" 1%nat;
                                     Dispatch ready (raw_ok "Y" 2)])))
    by (simpl; apply NoDup_singleton).
  assert (Hquiet : Forall (unrelated parse "X" 0)
                     [ListenMessage "login" 1%nat; Dispatch ready (raw_ok "Y" 2)]).
  { repeat constructor. intros p Hp. vm_compute in Hp. injection Hp as <-.
    discriminate. }
  destruct (request_times_out parse handlers 0 []
              [ListenMessage "login" 1%nat; Dispatch ready (raw_ok "Y" 2)]
              ready "X" "getUser" JUndefined 15000 0%nat 0%nat one_pending
              Hnd eq_refl eq_refl Hquiet)
    as (_ & Hset & _).
  rewrite Hset. vm_compute. reflexivity.
Defined.

Lemma event_acknowledged_witness :
  acks (dispatch parse handlers 0 ready raw_event listening).1
  = (acks listening ++
     [[("action", JStr "login"); ("data", JNum 14); ("id", JStr "e1");
       ("code", JNum 200)]])%list.
Proof.
  assert (Hne : "login" ≠ EmptyString) by discriminate.
  destruct (event_acknowledged parse handlers 0 ready raw_event login_event "login"
              [1%nat] (fun _ => None) listening
              eq_refl eq_refl Hne eq_refl eq_refl eq_refl (fun _ => eq_refl))
    as (_ & _ & Hack & _).
  exact (Hack 1%nat (JNum 14) eq_refl eq_refl).
Defined.

Lemma second_listener_evicts_first_witness :
  invoked (dispatch parse handlers 0 ready raw_event
             (run parse handlers 0
                (listenMessage "login" 1%nat
                   (run parse handlers 0 initial [ListenMessage "login" 2%nat])).1
                [PostMessage ready "X" "getUser" JUndefined 15000])).1
  = [(1%nat, JNum 7)].
Proof.
  assert (Hne : "login" ≠ EmptyString) by discriminate.
  assert (Hdistinct : 2%nat ≠ 1%nat) by discriminate.
  assert (Hkeep : Forall (keeps_registration "login")
                    [PostMessage ready "X" "getUser" JUndefined 15000])
    by (repeat constructor).
  destruct (second_listener_evicts_first parse handlers 0
              [ListenMessage "login" 2%nat]
              [PostMessage ready "X" "getUser" JUndefined 15000]
              "login" 2%nat 1%nat ready raw_event login_event
              eq_refl Hdistinct Hkeep eq_refl eq_refl Hne eq_refl)
    as (_ & _ & _ & _ & _ & _ & Hinv).
  rewrite Hinv. vm_compute. reflexivity.
Defined.

Lemma duplicate_listener_keeps_registration_witness :
  eventListeners (listenMessage "login" 1%nat listening).1
  = eventListeners listening.
Proof.
  apply (duplicate_listener_keeps_registration "login" 1%nat [1%nat] listening).
  - reflexivity.
  - left.
Defined.

End Witness.

(** ** Waiting for the channels *)

Lemma waitForBridgeReady_unfold (fuel : nat) (w : nat -> Window) (k : nat) :
  waitForBridgeReady fuel w k
  = if bothReady (w k) then Some k
    else match fuel with
         | O => None
         | S fuel' => waitForBridgeReady fuel' w (S k)
         end.
Proof. destruct fuel; reflexivity. Qed.

(** X1. [waitForBridgeReady] resolves at the first run of [checkBridge]
    that finds both channels ready, and at no other: looking at [fuel]
    re-schedules from run [k] on, it resolves at run [n] exactly when [n] is
    among them, both channels are ready at [n], and at each run from [k] up
    to [n] at least one of them was not. *)
Theorem waitForBridgeReady_first (fuel : nat) (w : nat -> Window) (k n : nat) :
  waitForBridgeReady fuel w k = Some n
  ↔ (k ≤ n ≤ k + fuel)%nat
    ∧ bothReady (w n) = true
    ∧ ∀ i, (k ≤ i < n)%nat → bothReady (w i) = false.
Proof.
  revert k. induction fuel as [| fuel IH]; intros k;
    rewrite waitForBridgeReady_unfold; destruct (bothReady (w k)) eqn:Hk.
  - split.
    + intros [= <-]. split; [lia |]. split; [exact Hk | intros i Hi; lia].
    + intros (Hle & _ & _). f_equal. lia.
  - split; [discriminate |]. intros (Hle & Hn & _).
    assert (n = k) as -> by lia. congruence.
  - split.
    + intros [= <-]. split; [lia |]. split; [exact Hk | intros i Hi; lia].
    + intros (Hle & Hn & Hbefore). f_equal.
      destruct (decide (k = n)) as [Heq | Hne]; [exact Heq |].
      rewrite Hbefore in Hk by lia. discriminate.
  - rewrite IH. split.
    + intros (Hle & Hn & Hbefore). split; [lia |]. split; [exact Hn |].
      intros i Hi. destruct (decide (i = k)) as [-> | Hne]; [exact Hk |].
      apply Hbefore. lia.
    + intros (Hle & Hn & Hbefore).
      assert (k ≠ n) by (intros ->; congruence).
      split; [lia |]. split; [exact Hn |]. intros i Hi. apply Hbefore. lia.
Qed.

Lemma waitForBridgeReady_never (fuel : nat) (w : nat -> Window) (k : nat) :
  (∀ i, bothReady (w i) = false) → waitForBridgeReady fuel w k = None.
Proof.
  intros Hnever. revert k. induction fuel as [| fuel IH]; intros k;
    rewrite waitForBridgeReady_unfold, Hnever; [reflexivity | apply IH].
Qed.

(** ** [postMessage] *)

Section Sending.

Variable JSON_parse : string -> option parsed.
Variable callbacks : CallbackEvent -> jsval -> awaited.
Variable fuel : nat.

(** X2. A request goes out and its answer comes back. When the request
    channel is on the page at the call and its [postMessage] returns,
    [postMessage] hands the host the object [{action, id, data}] once and
    arms a timer; a later response that bears the same [id] and counts as
    success resolves the very promise that [postMessage] returned, with the
    response's data, removes the entry and disarms that timer. Every other
    entry of the table is as it was before the call. *)
Theorem request_response_round_trip (w w' : nat -> Window) (post : wire -> option jsval)
    (k act : string) (dat : jsval) (timeout : Z) (raw : string) (p : Payload)
    (st : State) :
  channel (w 0%nat) = Bridge post →
  post [("action", JStr act); ("id", JStr k); ("data", dat)] = None →
  JSON_parse raw = Some (Envelope p) →
  id p = JStr k →
  success_as_specified p →
  ∃ st1,
    postMessage fuel w k act dat timeout st = Some (next_promise st, st1)
    ∧ outbox st1 = (outbox st ++ [[("action", JStr act); ("id", JStr k); ("data", dat)]])%list
    ∧ timers st1 !! next_timer st = Some (mkTask k act timeout (next_promise st))
    ∧ settled st1 = settled st
    ∧ settled (dispatch JSON_parse callbacks fuel w' raw st1).1
      = (settled st ++ [(next_promise st, Resolved (data p))])%list
    ∧ pendingPromises (dispatch JSON_parse callbacks fuel w' raw st1).1 !! k = None
    ∧ timers (dispatch JSON_parse callbacks fuel w' raw st1).1 !! next_timer st = None
    ∧ ∀ k', k' ≠ k →
        pendingPromises (dispatch JSON_parse callbacks fuel w' raw st1).1 !! k'
        = pendingPromises st !! k'.
Proof.
  intros Hch Hpost Hparse Hid Hok. apply isSuccess_spec in Hok.
  eexists. split.
  { unfold postMessage, issue, postNative. rewrite Hch. simpl. rewrite Hpost.
    reflexivity. }
  split; [reflexivity |]. split; [apply lookup_insert_eq |]. split; [reflexivity |].
  erewrite (dispatch_response JSON_parse callbacks fuel w' raw p k
              (mkPending (next_promise st) (next_timer st)));
    [| exact Hparse | exact Hid | apply lookup_insert_eq].
  rewrite Hok. simpl. split; [reflexivity |].
  split; [apply lookup_delete_eq |]. split; [apply lookup_delete_eq |].
  intros k' Hne. rewrite lookup_delete_ne, lookup_insert_ne by congruence. reflexivity.
Qed.

(** X3. When the host's [postMessage] throws [e], [postMessage] rejects the
    promise it returns with [e], takes the entry and the timer back out, and
    leaves every other entry and timer alone; the attempted send is the only
    trace on the request channel. *)
Theorem send_failure_cleans_up (w : nat -> Window) (post : wire -> option jsval)
    (e : jsval) (k act : string) (dat : jsval) (timeout : Z) (st : State) :
  channel (w 0%nat) = Bridge post →
  post [("action", JStr act); ("id", JStr k); ("data", dat)] = Some e →
  ∃ st1,
    postMessage fuel w k act dat timeout st = Some (next_promise st, st1)
    ∧ settled st1 = (settled st ++ [(next_promise st, Rejected (SendError (HostError e)))])%list
    ∧ pendingPromises st1 = delete k (pendingPromises st)
    ∧ timers st1 = delete (next_timer st) (timers st)
    ∧ outbox st1 = (outbox st ++ [[("action", JStr act); ("id", JStr k); ("data", dat)]])%list
    ∧ acks st1 = acks st
    ∧ eventListeners st1 = eventListeners st.
Proof.
  intros Hch Hpost. eexists. split.
  { unfold postMessage, issue, postNative. rewrite Hch. simpl. rewrite Hpost.
    reflexivity. }
  simpl. rewrite !delete_insert_eq. repeat split.
Qed.

(** X4. The request channel is read once, before the wait. When it is not a
    usable bridge at the call, then, whenever the call gets past
    [waitForBridgeReady], it rejects the promise it returns with the
    [TypeError] of the failed call, sends nothing, and leaves no entry under
    the identifier and no timer behind. *)
Theorem unready_channel_rejects (w : nat -> Window) (k act : string) (dat : jsval)
    (timeout : Z) (st : State) (result : nat * State) :
  isReady (channel (w 0%nat)) = false →
  postMessage fuel w k act dat timeout st = Some result →
  result.1 = next_promise st
  ∧ (∃ msg, settled result.2
            = (settled st ++ [(next_promise st, Rejected (SendError (TypeError msg)))])%list)
  ∧ outbox result.2 = outbox st
  ∧ pendingPromises result.2 !! k = None
  ∧ timers result.2 = delete (next_timer st) (timers st).
Proof.
  intros Hnot Hpost. apply (postMessage_issue fuel) in Hpost. subst result.
  unfold issue, postNative. destruct (channel (w 0%nat)) as [| | post];
    [| | discriminate]; simpl; rewrite !delete_insert_eq;
    (split; [reflexivity |]); (split; [eexists; reflexivity |]);
    (split; [reflexivity |]); (split; [apply lookup_delete_eq | reflexivity]).
Qed.

(** X5. A call made while the request channel is missing creates no promise
    entry and arms no timer before both channels are ready: on a page where
    the two channels are never ready together the call stays suspended,
    however long one looks, and the timeout does not cover that wait. *)
Theorem missing_channel_waits_forever (w : nat -> Window) (k act : string) (dat : jsval)
    (timeout : Z) (st : State) :
  channel (w 0%nat) = Unbound →
  (∀ i, bothReady (w i) = false) →
  postMessage fuel w k act dat timeout st = None.
Proof.
  intros Hch Hnever. unfold postMessage. rewrite Hch. simpl.
  rewrite (waitForBridgeReady_never fuel w 0 Hnever). reflexivity.
Qed.

End Sending.

(** ** What [dispatch] does with a message *)

Section Routing.

Variable JSON_parse : string -> option parsed.
Variable callbacks : CallbackEvent -> jsval -> awaited.
Variable fuel : nat.

(** A parsed message is the response of a pending request, an event for a
    registered action, or neither. *)
Lemma classification (payload : parsed) (st : State) :
  (∃ p k pc, payload = Envelope p ∧ id p = JStr k ∧ pendingPromises st !! k = Some pc)
  ∨ (∃ p a listeners,
       payload = Envelope p ∧ action p = JStr a ∧ a ≠ EmptyString
       ∧ eventListeners st !! a = Some listeners
       ∧ has (pendingPromises st) (id p) = false)
  ∨ (has (pendingPromises st) (member_opt id payload) = false
     ∧ truthy (member_opt action payload)
       && has (eventListeners st) (member_opt action payload) = false).
Proof.
  destruct (has (pendingPromises st) (member_opt id payload)) eqn:Hresp.
  - left. apply has_lookup in Hresp as (k & pc & Hid & Hk).
    destruct payload as [| ? | ? | ? | ? | p]; try discriminate.
    simpl in Hid. exists p, k, pc. auto.
  - destruct (truthy (member_opt action payload)
              && has (eventListeners st) (member_opt action payload)) eqn:Hev;
      [| right; right; auto].
    right. left. apply andb_true_iff in Hev as [Htruthy Hhas].
    apply has_lookup in Hhas as (a & listeners & Hact & Hreg).
    destruct payload as [| ? | ? | ? | ? | p]; try discriminate.
    simpl in *. exists p, a, listeners. rewrite Hact in Htruthy. simpl in Htruthy.
    repeat split; try assumption.
    intros ->. discriminate.
Qed.

Lemma dispatch_unroutable (w : nat -> Window) (raw : string) (payload : parsed)
    (st : State) :
  JSON_parse raw = Some payload →
  has (pendingPromises st) (member_opt id payload) = false →
  truthy (member_opt action payload)
    && has (eventListeners st) (member_opt action payload) = false →
  dispatch JSON_parse callbacks fuel w raw st
  = if warning_throws payload
    then (say Log "FlutterBridgeSDK: Received message from Flutter: " st,
          Throws (TypeError "Cannot convert object to primitive value"))
    else (say (unroutable payload).1 (unroutable payload).2
            (say Log "FlutterBridgeSDK: Received message from Flutter: " st),
          Returns).
Proof.
  intros Hparse Hresp Hev.
  unfold dispatch, validate, unroutable, warning_throws. rewrite Hparse. simpl.
  rewrite Hresp, Hev.
  destruct (truthy_parsed payload) eqn:Ht; simpl;
    [destruct (is_string (member_opt id payload)) eqn:Hs; simpl |]; try reflexivity.
  destruct payload as [| ? | ? | ? | ? | p]; try discriminate; simpl in *.
  rewrite Hresp, Hev. destruct (id p); try discriminate. simpl.
  rewrite andb_true_r. destruct (printable (action p)); reflexivity.
Qed.

(** X6. [dispatch] can throw in one place only, on messages whose [code]
    and [errorMessage] have their declared types: the warning for a message
    that cannot be routed, which is built with the [action] in a template
    literal. It throws exactly when the message is an object with a string
    [id] that is neither the response of a pending request nor an event for
    a registered action, and its [action] does not convert to a string (an
    object with a [toString] member of its own, or an array that holds one);
    what it throws is the [TypeError] of that conversion. On every other
    message its promise fulfils, or the call is still waiting. *)
Theorem dispatch_throws_only_in_warning (w : nat -> Window) (raw : string) (st : State)
    (e : thrown) :
  (dispatch JSON_parse callbacks fuel w raw st).2 = Throws e
  ↔ e = TypeError "Cannot convert object to primitive value"
    ∧ ∃ p, JSON_parse raw = Some (Envelope p)
           ∧ is_string (id p) = true
           ∧ has (pendingPromises st) (id p) = false
           ∧ truthy (action p) && has (eventListeners st) (action p) = false
           ∧ printable (action p) = false.
Proof.
  split.
  - destruct (JSON_parse raw) as [payload |] eqn:Hparse.
    + destruct (classification payload st)
        as [(p & k & pc & -> & Hid & Hk)
           | [(p & a & listeners & -> & Hact & Hne & Hreg & Hnot) | [Hresp Hev]]].
      * rewrite (dispatch_response JSON_parse callbacks fuel w raw p k pc st Hparse Hid Hk).
        discriminate.
      * destruct (dispatch_event JSON_parse callbacks fuel w raw p a listeners st
                    Hparse Hact Hne Hreg Hnot) as (st1 & -> & _).
        unfold deliver. destruct (missing _); [destruct (waitForBridgeReady _ _ _) |];
          discriminate.
      * rewrite (dispatch_unroutable w raw payload st Hparse Hresp Hev).
        destruct (warning_throws payload) eqn:Hthrows; [| discriminate].
        simpl. intros [= <-]. split; [reflexivity |].
        unfold warning_throws in Hthrows.
        apply andb_true_iff in Hthrows as [Hthrows Hprint].
        apply andb_true_iff in Hthrows as [_ Hstring].
        destruct payload as [| ? | ? | ? | ? | p]; try discriminate. simpl in *.
        exists p. repeat split; try assumption.
        destruct (printable (action p)); [discriminate | reflexivity].
    + unfold dispatch, validate. rewrite Hparse. discriminate.
  - intros (-> & p & Hparse & Hstring & Hresp & Hev & Hprint).
    rewrite (dispatch_unroutable w raw (Envelope p) st Hparse Hresp Hev).
    unfold warning_throws. simpl. rewrite Hstring, Hprint. reflexivity.
Qed.

End Routing.

Section Responses.

Variable JSON_parse : string -> option parsed.
Variable callbacks : CallbackEvent -> jsval -> awaited.
Variable fuel : nat.

(** A message that does not bear the identifier of a pending request leaves
    the correlation table, the timers and the settlements alone. *)
Lemma dispatch_same_unless_response (w : nat -> Window) (raw : string) (st : State) :
  (∀ p k pc, JSON_parse raw = Some (Envelope p) → id p = JStr k →
             pendingPromises st !! k = Some pc → False) →
  same_requests st (dispatch JSON_parse callbacks fuel w raw st).1.
Proof.
  intros Hnot. destruct (JSON_parse raw) as [payload |] eqn:Hparse.
  - destruct (classification payload st)
      as [(p & k & pc & -> & Hid & Hk)
         | [(p & a & listeners & -> & Hact & Hne & Hreg & Hno) | [Hresp Hev]]].
    + exfalso. eapply Hnot; eauto.
    + destruct (dispatch_event JSON_parse callbacks fuel w raw p a listeners st
                  Hparse Hact Hne Hreg Hno) as (st1 & -> & Hsame & _).
      eapply same_requests_trans; [exact Hsame | apply deliver_same].
    + rewrite (dispatch_unroutable JSON_parse callbacks fuel w raw payload st
                 Hparse Hresp Hev). destruct (warning_throws payload); repeat split.
  - unfold dispatch, validate. rewrite Hparse. repeat split.
Qed.

(** X7. One call of [dispatch] touches at most one request. Either the
    correlation table, the timers and the settlements are exactly as before,
    or the message is an object whose [id] is the key of a pending entry:
    then the promise of that entry, and no other, is settled once (resolved
    with the data or rejected with the response error), that entry alone is
    removed and that timer alone is cleared. *)
Theorem dispatch_touches_one_request (w : nat -> Window) (raw : string) (st : State) :
  same_requests st (dispatch JSON_parse callbacks fuel w raw st).1
  ∨ ∃ p k pc,
      JSON_parse raw = Some (Envelope p)
      ∧ id p = JStr k
      ∧ pendingPromises st !! k = Some pc
      ∧ settled (dispatch JSON_parse callbacks fuel w raw st).1
        = (settled st
           ++ [(promise pc,
                if isSuccess p then Resolved (data p) else Rejected (responseError p))])%list
      ∧ pendingPromises (dispatch JSON_parse callbacks fuel w raw st).1
        = delete k (pendingPromises st)
      ∧ timers (dispatch JSON_parse callbacks fuel w raw st).1
        = delete (timer pc) (timers st)
      ∧ next_timer (dispatch JSON_parse callbacks fuel w raw st).1 = next_timer st
      ∧ next_promise (dispatch JSON_parse callbacks fuel w raw st).1 = next_promise st.
Proof.
  destruct (JSON_parse raw) as [[| ? | ? | ? | ? | p] |] eqn:Hparse;
    try (left; apply dispatch_same_unless_response; intros; congruence).
  destruct (id p) as [| | | | k | |] eqn:Hid;
    try (left; apply dispatch_same_unless_response; intros; congruence).
  destruct (pendingPromises st !! k) as [pc |] eqn:Hk;
    [| left; apply dispatch_same_unless_response; intros; congruence].
  right. exists p, k, pc.
  rewrite (dispatch_response JSON_parse callbacks fuel w raw p k pc st Hparse Hid Hk).
  simpl. destruct (isSuccess p); repeat split; auto.
Qed.

(** X8. A message that is neither the response of a pending request nor an
    event for a registered action (a value that is not an object, an object
    without a usable [id] or [action], an unknown [id] with an unknown
    [action]) is dropped: nothing changes but the console. When the warning
    for it can be built, [dispatch] returns after writing two lines, the
    line for the received text and one error or warning; when the message
    got past the [try] block and its [action] does not convert to a string,
    the call throws the [TypeError] of the conversion after the first line
    alone. *)
Theorem unroutable_message_dropped (w : nat -> Window) (raw : string) (payload : parsed)
    (st : State) :
  JSON_parse raw = Some payload →
  has (pendingPromises st) (member_opt id payload) = false →
  truthy (member_opt action payload)
    && has (eventListeners st) (member_opt action payload) = false →
  same_requests st (dispatch JSON_parse callbacks fuel w raw st).1
  ∧ eventListeners (dispatch JSON_parse callbacks fuel w raw st).1 = eventListeners st
  ∧ outbox (dispatch JSON_parse callbacks fuel w raw st).1 = outbox st
  ∧ acks (dispatch JSON_parse callbacks fuel w raw st).1 = acks st
  ∧ invoked (dispatch JSON_parse callbacks fuel w raw st).1 = invoked st
  ∧ (warning_throws payload = false →
       (dispatch JSON_parse callbacks fuel w raw st).2 = Returns
       ∧ console (dispatch JSON_parse callbacks fuel w raw st).1
         = (console st ++ [(Log, "FlutterBridgeSDK: Received message from Flutter: ");
                           unroutable payload])%list)
  ∧ (warning_throws payload = true →
       (dispatch JSON_parse callbacks fuel w raw st).2
       = Throws (TypeError "Cannot convert object to primitive value")
       ∧ console (dispatch JSON_parse callbacks fuel w raw st).1
         = (console st
            ++ [(Log, "FlutterBridgeSDK: Received message from Flutter: ")])%list).
Proof.
  intros Hparse Hresp Hev.
  rewrite (dispatch_unroutable JSON_parse callbacks fuel w raw payload st Hparse Hresp Hev).
  destruct (warning_throws payload); simpl; rewrite <- ?app_assoc;
    destruct (unroutable payload); repeat split; intros; try discriminate; auto.
Qed.

(** X9. A callback registered under the empty string is never called: an
    event whose [action] is the empty string is dropped like any message
    without an action, because [dispatch] tests the action for truthiness
    before it looks it up. *)
Theorem empty_action_never_delivered (w : nat -> Window) (raw : string) (p : Payload)
    (callback : CallbackEvent) (st : State) :
  JSON_parse raw = Some (Envelope p) →
  action p = JStr EmptyString →
  has (pendingPromises st) (id p) = false →
  eventListeners (listenMessage EmptyString callback st).1 !! EmptyString ≠ None
  ∧ invoked (dispatch JSON_parse callbacks fuel w raw
               (listenMessage EmptyString callback st).1).1
    = invoked st
  ∧ acks (dispatch JSON_parse callbacks fuel w raw
            (listenMessage EmptyString callback st).1).1
    = acks st.
Proof.
  intros Hparse Hact Hresp.
  destruct (listenMessage_same EmptyString callback st) as (Hp & _).
  split.
  - destruct (listenMessage_registry EmptyString callback st)
      as [(listeners & Hreg & _ & ->) | ->].
    + rewrite Hreg. discriminate.
    + rewrite lookup_insert_eq. discriminate.
  - rewrite (dispatch_unroutable JSON_parse callbacks fuel w raw (Envelope p)
               (listenMessage EmptyString callback st).1 Hparse).
    + unfold warning_throws. simpl. rewrite Hact. simpl. rewrite andb_false_r.
      unfold listenMessage. repeat case_match; simpl; auto.
    + simpl. rewrite Hp. exact Hresp.
    + simpl. rewrite Hact. reflexivity.
Qed.

End Responses.

Section Order.

Variable JSON_parse : string -> option parsed.
Variable callbacks : CallbackEvent -> jsval -> awaited.
Variable fuel : nat.

(** X10. The identifier is looked at before the action. A message whose
    [id] is the key of a pending request is taken as its response even when
    its [action] has a registered callback: no callback is called, nothing
    is acknowledged, and the call returns without waiting for any channel. *)
Theorem response_before_event (w : nat -> Window) (raw : string) (p : Payload)
    (k : string) (pc : PendingPromise) (st : State) :
  JSON_parse raw = Some (Envelope p) →
  id p = JStr k →
  pendingPromises st !! k = Some pc →
  (dispatch JSON_parse callbacks fuel w raw st).2 = Returns
  ∧ invoked (dispatch JSON_parse callbacks fuel w raw st).1 = invoked st
  ∧ acks (dispatch JSON_parse callbacks fuel w raw st).1 = acks st
  ∧ eventListeners (dispatch JSON_parse callbacks fuel w raw st).1 = eventListeners st
  ∧ length (settled (dispatch JSON_parse callbacks fuel w raw st).1)
    = S (length (settled st)).
Proof.
  intros Hparse Hid Hk.
  rewrite (dispatch_response JSON_parse callbacks fuel w raw p k pc st Hparse Hid Hk).
  simpl. rewrite length_app. simpl. repeat split. lia.
Qed.

(** X11. A response that arrives after the timeout is not delivered. Once
    the timer of a pending request has run, the request is rejected with the
    timeout error, and a message bearing its identifier no longer finds it:
    the correlation table, the timers and the settlements stay as the
    timeout left them. *)
Theorem late_response_ignored (w : nat -> Window) (raw : string) (p : Payload)
    (k : string) (pc : PendingPromise) (task : TimerTask) (st : State) :
  pendingPromises st !! k = Some pc →
  timers st !! timer pc = Some task →
  t_id task = k →
  JSON_parse raw = Some (Envelope p) →
  id p = JStr k →
  settled (fireTimer (timer pc) st)
  = (settled st ++ [(t_promise task, Rejected (TimeoutError (timeoutMessage task)))])%list
  ∧ pendingPromises (fireTimer (timer pc) st) !! k = None
  ∧ same_requests (fireTimer (timer pc) st)
      (dispatch JSON_parse callbacks fuel w raw (fireTimer (timer pc) st)).1.
Proof.
  intros Hk Ht Htid Hparse Hid.
  assert (Hfired : fireTimer (timer pc) st
    = settle (t_promise task) (Rejected (TimeoutError (timeoutMessage task)))
        (set_pending (delete k) (clearTimeout (timer pc) st))).
  { unfold fireTimer. rewrite Ht. simpl. rewrite Htid, Hk. reflexivity. }
  rewrite Hfired. split; [reflexivity |]. split; [apply lookup_delete_eq |].
  apply dispatch_same_unless_response. intros p' k' pc' Hparse' Hid' Hk'.
  simpl in Hk'. assert (k' = k) as -> by congruence.
  rewrite lookup_delete_eq in Hk'. discriminate.
Qed.

(** X12. A request that has been answered is out of reach. After the
    response for a pending request was dispatched, its timer is no longer
    armed, so the timeout callback cannot run and settle the promise a second
    time; and a second copy of the response settles nothing either. *)
Theorem answered_request_settled_once (w w' : nat -> Window) (raw : string)
    (p : Payload) (k : string) (pc : PendingPromise) (st : State) :
  JSON_parse raw = Some (Envelope p) →
  id p = JStr k →
  pendingPromises st !! k = Some pc →
  timers (dispatch JSON_parse callbacks fuel w raw st).1 !! timer pc = None
  ∧ fireTimer (timer pc) (dispatch JSON_parse callbacks fuel w raw st).1
    = (dispatch JSON_parse callbacks fuel w raw st).1
  ∧ same_requests (dispatch JSON_parse callbacks fuel w raw st).1
      (dispatch JSON_parse callbacks fuel w' raw
         (dispatch JSON_parse callbacks fuel w raw st).1).1.
Proof.
  intros Hparse Hid Hk.
  rewrite (dispatch_response JSON_parse callbacks fuel w raw p k pc st Hparse Hid Hk).
  simpl. split; [apply lookup_delete_eq |]. split.
  - unfold fireTimer. simpl. rewrite lookup_delete_eq. reflexivity.
  - apply dispatch_same_unless_response. intros p' k' pc' Hparse' Hid' Hk'.
    simpl in Hk'. assert (k' = k) as -> by congruence.
    rewrite lookup_delete_eq in Hk'. discriminate.
Qed.

End Order.

Section Sends.

Variable JSON_parse : string -> option parsed.
Variable callbacks : CallbackEvent -> jsval -> awaited.

Lemma notify_all_attempts (post : wire -> option jsval) (p : Payload)
    (listeners : list CallbackEvent) (st : State) :
  (∀ m, post m ≠ None) →
  acks (foldl (notify callbacks (Bridge post) p) st listeners)
    = (acks st ++ concat (map (attempts callbacks p) listeners))%list
  ∧ console (foldl (notify callbacks (Bridge post) p) st listeners) = console st.
Proof.
  intros Hpost. revert st. induction listeners as [| callback rest IH]; intros st; simpl.
  - rewrite app_nil_r. auto.
  - destruct (IH (notify callbacks (Bridge post) p st callback)) as [-> ->].
    unfold notify, notifyFailure, attempts, postInner.
    destruct (callbacks callback (data p)) as [result | error |]; simpl.
    + destruct (post (ackSuccess p result)) eqn:H1; [| destruct (Hpost _ H1)].
      destruct (post (ackFailure p)) eqn:H2; [| destruct (Hpost _ H2)].
      simpl. rewrite <- !app_assoc. auto.
    + destruct (post (ackFailure p)) eqn:H2; [| destruct (Hpost _ H2)].
      simpl. rewrite <- !app_assoc. auto.
    + auto.
Qed.

Lemma notify_all_not_callable (p : Payload) (listeners : list CallbackEvent) (st : State) :
  acks (foldl (notify callbacks NotCallable p) st listeners) = acks st.
Proof.
  revert st. induction listeners as [| callback rest IH]; intros st; simpl;
    [reflexivity |].
  rewrite IH. unfold notify. destruct (callbacks callback (data p)); reflexivity.
Qed.

(** X13. When every call of the inner channel's [postMessage] throws, a
    callback that fulfilled is reported twice: the success acknowledgement
    is attempted, its failure lands in the [catch] of the callback wrapper,
    and the failure acknowledgement (code 500) is attempted as well. A
    callback that rejected gets the one attempt with code 500, and one that
    never settles none. The call still returns, and the registry and the
    correlation table are untouched. *)
Theorem failed_acknowledgement_attempts (fuel : nat) (w : nat -> Window) (raw : string)
    (p : Payload) (a : string) (listeners : list CallbackEvent)
    (post : wire -> option jsval) (st : State) :
  JSON_parse raw = Some (Envelope p) →
  action p = JStr a →
  a ≠ EmptyString →
  eventListeners st !! a = Some listeners →
  has (pendingPromises st) (id p) = false →
  innerChannel (w 0%nat) = Bridge post →
  (∀ m, post m ≠ None) →
  (dispatch JSON_parse callbacks fuel w raw st).2 = Returns
  ∧ acks (dispatch JSON_parse callbacks fuel w raw st).1
    = (acks st ++ concat (map (attempts callbacks p) listeners))%list
  ∧ (∀ callback r, listeners = [callback] → callbacks callback (data p) = Fulfilled r →
       acks (dispatch JSON_parse callbacks fuel w raw st).1
       = (acks st ++
          [[("action", JStr a); ("data", r); ("id", id p); ("code", JNum 200)];
           [("action", JStr a); ("id", id p); ("code", JNum 500)]])%list)
  ∧ eventListeners (dispatch JSON_parse callbacks fuel w raw st).1 = eventListeners st
  ∧ same_requests st (dispatch JSON_parse callbacks fuel w raw st).1.
Proof.
  intros Hparse Hact Hne Hreg Hnot Hinner Hpost.
  destruct (dispatch_event JSON_parse callbacks fuel w raw p a listeners st
              Hparse Hact Hne Hreg Hnot) as (st1 & -> & Hsame & Hl & Ha & Hi).
  assert (Hacks : acks (deliver callbacks fuel w p st1).1
                  = (acks st ++ concat (map (attempts callbacks p) listeners))%list).
  { unfold deliver. rewrite Hinner. simpl. rewrite Hact. simpl. rewrite Hl, Hreg. simpl.
    destruct (notify_all_attempts post p listeners st1 Hpost) as [-> _].
    rewrite Ha. reflexivity. }
  split; [unfold deliver; rewrite Hinner; reflexivity |].
  split; [exact Hacks |]. split; [| split].
  - intros callback r -> Hr. rewrite Hacks. simpl. unfold attempts, ackSuccess, ackFailure.
    rewrite Hr, Hact. reflexivity.
  - unfold deliver. rewrite Hinner. simpl.
    match goal with |- context [foldl (notify ?c ?b ?q) ?s ?l] =>
      destruct (notify_all_effects c b q l s) as [_ ->] end. exact Hl.
  - eapply same_requests_trans; [exact Hsame | apply deliver_same].
Qed.

(** X14. The inner channel is read once, when the event is dispatched. If
    it is not a usable bridge at that moment (missing, or an object without
    [postMessage]), no acknowledgement is sent for the event, whenever and
    however the call ends. A missing channel makes the call wait, and no
    callback is called while it waits; an object without [postMessage] does
    not, and the callbacks the action holds are called at once, their
    outcomes unreported. *)
Theorem unready_inner_channel_sends_nothing (fuel : nat) (w : nat -> Window)
    (raw : string) (p : Payload) (a : string) (listeners : list CallbackEvent)
    (st : State) :
  JSON_parse raw = Some (Envelope p) →
  action p = JStr a →
  a ≠ EmptyString →
  eventListeners st !! a = Some listeners →
  has (pendingPromises st) (id p) = false →
  isReady (innerChannel (w 0%nat)) = false →
  acks (dispatch JSON_parse callbacks fuel w raw st).1 = acks st
  ∧ ((dispatch JSON_parse callbacks fuel w raw st).2 = Waits →
     invoked (dispatch JSON_parse callbacks fuel w raw st).1 = invoked st)
  ∧ (innerChannel (w 0%nat) = NotCallable →
     (dispatch JSON_parse callbacks fuel w raw st).2 = Returns
     ∧ invoked (dispatch JSON_parse callbacks fuel w raw st).1
       = (invoked st ++ map (λ callback, (callback, data p)) listeners)%list)
  ∧ (innerChannel (w 0%nat) = Unbound →
     (dispatch JSON_parse callbacks fuel w raw st).2
     = match waitForBridgeReady fuel w 0 with Some _ => Returns | None => Waits end).
Proof.
  intros Hparse Hact Hne Hreg Hnot Hinner.
  destruct (dispatch_event JSON_parse callbacks fuel w raw p a listeners st
              Hparse Hact Hne Hreg Hnot) as (st1 & -> & _ & Hl & Ha & Hi).
  unfold deliver. rewrite Hact. simpl. rewrite Hl, Hreg. simpl.
  destruct (innerChannel (w 0%nat)) as [| | post]; [| | discriminate]; simpl.
  - destruct (waitForBridgeReady fuel w 0); simpl.
    + rewrite notify_all_unbound, Ha. repeat split; intros; try discriminate; auto.
    + rewrite Ha, Hi. repeat split; intros; try discriminate; auto.
  - rewrite notify_all_not_callable.
    destruct (notify_all_effects callbacks NotCallable p listeners st1) as [-> _].
    rewrite Ha, Hi. repeat split; intros; try discriminate; auto.
Qed.

End Sends.

(** ** The registry *)

Lemma listenMessage_holds (act : string) (callback : CallbackEvent) (st : State) :
  ∃ listeners,
    eventListeners (listenMessage act callback st).1 !! act = Some listeners
    ∧ callback ∈ listeners
    ∧ (single_listener st → listeners = [callback]).
Proof.
  destruct (listenMessage_registry act callback st)
    as [(listeners & Hreg & Hin & ->) | ->].
  - exists listeners. split; [exact Hreg |]. split; [exact Hin |].
    intros Hs. pose proof (Hs act listeners Hreg) as Hlen.
    destruct listeners as [| h [| ? ?]]; try discriminate.
    apply list_elem_of_singleton in Hin. congruence.
  - exists [callback]. rewrite lookup_insert_eq. split; [reflexivity |].
    split; [left | reflexivity].
Qed.

Lemma listenMessage_other (act act' : string) (callback : CallbackEvent) (st : State) :
  act' ≠ act →
  eventListeners (listenMessage act callback st).1 !! act' = eventListeners st !! act'.
Proof.
  intros Hne.
  destruct (listenMessage_registry act callback st)
    as [(listeners & _ & _ & ->) | ->]; [reflexivity |].
  apply lookup_insert_ne. congruence.
Qed.

Lemma listenMessage_cancel (act : string) (callback : CallbackEvent) (st : State) :
  (listenMessage act callback st).2 = cancel act.
Proof. unfold listenMessage. destruct (bool_decide _); reflexivity. Qed.

(** X15. After [listenMessage(action, callback)] the action holds the
    callback, whatever was registered before, and it holds nothing but the
    callback when the registry held at most one callback per action; every
    other action keeps what it had, and the correlation table, the timers and
    the settlements are not touched. *)
Theorem listenMessage_registers (act : string) (callback : CallbackEvent) (st : State) :
  (∃ listeners,
     eventListeners (listenMessage act callback st).1 !! act = Some listeners
     ∧ callback ∈ listeners
     ∧ (single_listener st → listeners = [callback]))
  ∧ (∀ act', act' ≠ act →
       eventListeners (listenMessage act callback st).1 !! act'
       = eventListeners st !! act')
  ∧ same_requests st (listenMessage act callback st).1.
Proof.
  split; [apply listenMessage_holds |].
  split; [intros act' Hne; apply listenMessage_other; exact Hne |].
  apply listenMessage_same.
Qed.

(** X16. The function returned by [listenMessage] does not remember which
    callback it was returned for: it removes whatever the action holds when
    it is invoked. The function returned for a first callback, invoked after
    a second callback was registered for the same action, removes the
    second; every other action keeps its callback. *)
Theorem stale_cancel_removes_newer (act : string) (first second : CallbackEvent)
    (st : State) :
  let registered_first := listenMessage act first st in
  let registered_second := listenMessage act second registered_first.1 in
  eventListeners registered_second.1 !! act ≠ None
  ∧ eventListeners (registered_first.2 registered_second.1) !! act = None
  ∧ ∀ act', act' ≠ act →
      eventListeners (registered_first.2 registered_second.1) !! act'
      = eventListeners st !! act'.
Proof.
  intros registered_first registered_second.
  destruct (listenMessage_holds act second registered_first.1) as (listeners & Hreg & _).
  fold registered_second in Hreg.
  split; [rewrite Hreg; discriminate |].
  subst registered_first registered_second.
  rewrite listenMessage_cancel, cancel_registry. split; [apply lookup_delete_eq |].
  intros act' Hne. rewrite lookup_delete_ne by congruence.
  rewrite !listenMessage_other by exact Hne. reflexivity.
Qed.

(** X17. Registering a callback for an action that holds none and then
    invoking the returned function gives back the registry as it was; a
    second invocation changes nothing at all. *)
Theorem register_cancel_round_trip (act : string) (callback : CallbackEvent) (st : State) :
  eventListeners st !! act = None →
  let registered := listenMessage act callback st in
  eventListeners registered.1 !! act = Some [callback]
  ∧ eventListeners (registered.2 registered.1) = eventListeners st
  ∧ registered.2 (registered.2 registered.1) = registered.2 registered.1.
Proof.
  intros Hnone registered. subst registered. rewrite listenMessage_cancel.
  assert (Hreg : eventListeners (listenMessage act callback st).1
                 = <[act := [callback]]> (eventListeners st)).
  { destruct (listenMessage_registry act callback st)
      as [(listeners & Hsome & _) | Heq]; [congruence | exact Heq]. }
  split; [rewrite Hreg; apply lookup_insert_eq |]. split.
  - rewrite cancel_registry, Hreg, delete_insert_eq. apply delete_id. exact Hnone.
  - assert (Hgone : eventListeners (cancel act (listenMessage act callback st).1) !! act
                    = None) by (rewrite cancel_registry; apply lookup_delete_eq).
    unfold cancel at 1. rewrite Hgone. reflexivity.
Qed.

(** ** [rejectPendingPromise] *)

(** X18. [rejectPendingPromise] rejects at most once. For a pending
    identifier it calls [reject] of that entry's promise, clears its timer
    and removes the entry; called again for the same identifier, or called
    for an identifier that is not pending or for a value that is not a
    string, it does nothing. *)
Theorem rejectPendingPromise_once (k : jsval) (r r' : reason) (st : State) :
  rejectPendingPromise k r' (rejectPendingPromise k r st) = rejectPendingPromise k r st
  ∧ (has (pendingPromises st) k = false → rejectPendingPromise k r st = st)
  ∧ (∀ s pc, k = JStr s → pendingPromises st !! s = Some pc →
       settled (rejectPendingPromise k r st) = (settled st ++ [(promise pc, Rejected r)])%list
       ∧ pendingPromises (rejectPendingPromise k r st) = delete s (pendingPromises st)
       ∧ timers (rejectPendingPromise k r st) = delete (timer pc) (timers st)).
Proof.
  split; [| split].
  - unfold rejectPendingPromise. destruct k as [| | | | s | |]; try reflexivity.
    destruct (pendingPromises st !! s) as [pc |] eqn:Hs; simpl.
    + rewrite lookup_delete_eq. reflexivity.
    + rewrite Hs. reflexivity.
  - unfold rejectPendingPromise, has. destruct k as [| | | | s | |]; try reflexivity.
    destruct (pendingPromises st !! s); [discriminate | reflexivity].
  - intros s pc -> Hs. unfold rejectPendingPromise. rewrite Hs. repeat split.
Qed.

(** ** Along a run *)

Section Bookkeeping.

Variable JSON_parse : string -> option parsed.
Variable callbacks : CallbackEvent -> jsval -> awaited.
Variable fuel : nat.

(** X19. No timer is left dangling and no entry is left without a timer.
    At every point of a run in which [nanoid()] never returns the same
    identifier twice, every armed timer is the one stored in the pending
    entry of its request, every pending entry has its timer armed, and no
    promise of a pending entry has been settled. *)
Theorem timers_match_pending (calls : list call) :
  NoDup (drawn calls) →
  let st := run JSON_parse callbacks fuel initial calls in
  (∀ n task, timers st !! n = Some task →
     pendingPromises st !! t_id task = Some (mkPending (t_promise task) n))
  ∧ (∀ k pc, pendingPromises st !! k = Some pc →
       ∃ task, timers st !! timer pc = Some task
               ∧ t_id task = k ∧ t_promise task = promise pc)
  ∧ (∀ k pc, pendingPromises st !! k = Some pc → settlements (promise pc) st = []).
Proof.
  intros Hnd st.
  pose proof (run_consistent JSON_parse callbacks fuel calls [] initial
                consistent_initial Hnd) as Hc.
  fold st in Hc. split; [| split].
  - apply (timer_pending _ _ Hc).
  - apply (pending_timer _ _ Hc).
  - apply (pending_unsettled _ _ Hc).
Qed.

Lemma notify_all_outbox (innerBridge : binding) (p : Payload)
    (listeners : list CallbackEvent) (st : State) :
  outbox (foldl (notify callbacks innerBridge p) st listeners) = outbox st.
Proof.
  revert st. induction listeners as [| callback rest IH]; intros st; simpl;
    [reflexivity |].
  rewrite IH. unfold notify, notifyFailure, postInner.
  destruct (callbacks callback (data p)); destruct innerBridge as [| | post]; simpl;
    try reflexivity; repeat (destruct (post _); simpl); reflexivity.
Qed.

Lemma dispatch_outbox (w : nat -> Window) (raw : string) (st : State) :
  outbox (dispatch JSON_parse callbacks fuel w raw st).1 = outbox st.
Proof.
  destruct (JSON_parse raw) as [payload |] eqn:Hparse.
  - destruct (classification payload st)
      as [(p & k & pc & -> & Hid & Hk)
         | [(p & a & listeners & -> & Hact & Hne & Hreg & Hnot) | [Hresp Hev]]].
    + rewrite (dispatch_response JSON_parse callbacks fuel w raw p k pc st Hparse Hid Hk).
      reflexivity.
    + unfold dispatch, validate. rewrite Hparse. simpl.
      assert (Htruthy : truthy (action p) = true).
      { rewrite Hact. simpl. destruct (String.eqb_spec a EmptyString); [contradiction | auto]. }
      assert (Hhas : has (eventListeners st) (action p) = true).
      { rewrite Hact. simpl. rewrite Hreg. reflexivity. }
      rewrite Hnot, Htruthy, Hhas. simpl.
      destruct (is_string (id p)); simpl; rewrite Hnot, Htruthy, Hhas; simpl;
        unfold deliver;
        (destruct (missing _); [destruct (waitForBridgeReady _ _ _) |]); simpl;
        rewrite ?notify_all_outbox; reflexivity.
    + rewrite (dispatch_unroutable JSON_parse callbacks fuel w raw payload st
                 Hparse Hresp Hev). destruct (warning_throws payload); reflexivity.
  - unfold dispatch, validate. rewrite Hparse. reflexivity.
Qed.

(** X20. Each channel is written by one method only, and [postMessage]
    never sends twice. A call of [postMessage] adds to the request channel
    either nothing or the one object [{action, id, data}] of the request;
    no other call writes to it. Only [dispatch] calls callbacks and writes
    to the inner channel. Along a run the request channel therefore carries
    at most one message per call of [postMessage]. *)
Theorem channels_written_by_their_methods (st : State) (c : call) (calls : list call) :
  match c with
  | PostMessage w k act dat timeout =>
      outbox (step JSON_parse callbacks fuel st c) = outbox st
      ∨ outbox (step JSON_parse callbacks fuel st c)
        = (outbox st ++ [[("action", JStr act); ("id", JStr k); ("data", dat)]])%list
  | _ => outbox (step JSON_parse callbacks fuel st c) = outbox st
  end
  ∧ match c with
    | Dispatch _ _ => True
    | _ => acks (step JSON_parse callbacks fuel st c) = acks st
           ∧ invoked (step JSON_parse callbacks fuel st c) = invoked st
    end
  ∧ (length (outbox (run JSON_parse callbacks fuel st calls))
     ≤ length (outbox st) + length (drawn calls))%nat.
Proof.
  assert (Hstep : ∀ st c,
    match c with
    | PostMessage w k act dat timeout =>
        outbox (step JSON_parse callbacks fuel st c) = outbox st
        ∨ outbox (step JSON_parse callbacks fuel st c)
          = (outbox st ++ [[("action", JStr act); ("id", JStr k); ("data", dat)]])%list
    | _ => outbox (step JSON_parse callbacks fuel st c) = outbox st
    end).
  { intros st0 c0. destruct c0 as [w k act dat timeout | w raw | n | act cb | act]; simpl.
    - unfold postMessage, issue, postNative.
      destruct (missing _); [destruct (waitForBridgeReady _ _ _) |]; auto;
        destruct (channel (w 0%nat)) as [| | post]; simpl; auto;
        destruct (post _); simpl; auto.
    - apply dispatch_outbox.
    - unfold fireTimer. destruct (timers st0 !! n); [| reflexivity]. simpl.
      destruct (pendingPromises st0 !! _); reflexivity.
    - unfold listenMessage. repeat case_match; reflexivity.
    - unfold cancel. case_match; reflexivity. }
  split; [apply Hstep |]. split.
  - destruct c as [w k act dat timeout | w raw | n | act cb | act]; simpl; auto.
    + unfold postMessage, issue, postNative.
      destruct (missing _); [destruct (waitForBridgeReady _ _ _) |]; auto;
        destruct (channel (w 0%nat)) as [| | post]; simpl; auto;
        destruct (post _); simpl; auto.
    + unfold fireTimer. destruct (timers st !! n); [| auto]. simpl.
      destruct (pendingPromises st !! _); auto.
    + unfold listenMessage. repeat case_match; auto.
    + unfold cancel. case_match; auto.
  - clear c. revert st. induction calls as [| c rest IH]; intros st; [simpl; lia |].
    change (run JSON_parse callbacks fuel st (c :: rest))
      with (run JSON_parse callbacks fuel (step JSON_parse callbacks fuel st c) rest).
    specialize (IH (step JSON_parse callbacks fuel st c)).
    specialize (Hstep st c).
    destruct c as [w k act dat timeout | w raw | n | act cb | act]; simpl drawn;
      try (rewrite Hstep in IH; exact IH).
    destruct Hstep as [Hsame | Hsent]; [rewrite Hsame in IH |
      rewrite Hsent, length_app in IH]; simpl in *; lia.
Qed.

End Bookkeeping.

(** ** The earlier version: initialization *)

Lemma proceed_fields (req : Earlier.Request) (inst : Earlier.Instance) :
  Earlier.nativeBridge (Earlier.proceed req inst).1 = Earlier.nativeBridge inst
  ∧ Earlier.isInitialized (Earlier.proceed req inst).1 = Earlier.isInitialized inst
  ∧ Earlier.suspended (Earlier.proceed req inst).1 = Earlier.suspended inst.
Proof.
  unfold Earlier.proceed.
  destruct (Earlier.nativeBridge inst) eqn:Hb; simpl; rewrite ?Hb; auto.
Qed.

Lemma issue_bridge_outbox (post : wire -> option jsval) (k act : string) (dat : jsval)
    (timeout : Z) (st : State) :
  outbox (issue (Bridge post) k act dat timeout st).2
  = (outbox st ++ [[("action", JStr act); ("id", JStr k); ("data", dat)]])%list
  ∧ next_promise (issue (Bridge post) k act dat timeout st).2 = S (next_promise st)
  ∧ (issue (Bridge post) k act dat timeout st).1 = next_promise st.
Proof. unfold issue, postNative. simpl. destruct (post _); auto. Qed.

Lemma proceed_all (post : wire -> option jsval) (reqs : list Earlier.Request)
    (inst : Earlier.Instance) :
  Earlier.nativeBridge inst = Some post →
  let inst' := foldl (fun i req => (Earlier.proceed req i).1) inst reqs in
  Earlier.nativeBridge inst' = Some post
  ∧ Earlier.isInitialized inst' = Earlier.isInitialized inst
  ∧ Earlier.suspended inst' = Earlier.suspended inst
  ∧ outbox (Earlier.core inst')
    = (outbox (Earlier.core inst) ++ map Earlier.wire_of reqs)%list
  ∧ next_promise (Earlier.core inst')
    = (next_promise (Earlier.core inst) + length reqs)%nat.
Proof.
  revert inst. induction reqs as [| req rest IH]; intros inst Hb; simpl.
  - rewrite app_nil_r. repeat split; auto.
  - destruct (proceed_fields req inst) as (Hn & Hi & Hs).
    destruct (IH (Earlier.proceed req inst).1) as (-> & -> & -> & -> & ->);
      [congruence |].
    rewrite Hi, Hs. unfold Earlier.proceed. rewrite Hb. simpl.
    destruct (issue_bridge_outbox post (Earlier.r_nanoid req) (Earlier.r_action req)
                (Earlier.r_data req) (Earlier.r_timeout req) (Earlier.core inst))
      as (-> & -> & _).
    rewrite <- app_assoc. repeat split; auto; lia.
Qed.

Lemma detectBridge_well (w : Window) (inst : Earlier.Instance) :
  wellInitialized inst → wellInitialized (Earlier.detectBridge w inst).
Proof.
  intros [Hyes Hno]. unfold Earlier.detectBridge.
  destruct (channel w) as [| | post]; [split; assumption | split; assumption |].
  destruct (Earlier.isInitialized inst) eqn:Hinit.
  - destruct (Hyes eq_refl) as [_ Hs]. split; simpl; [| discriminate].
    intros _. split; [discriminate | exact Hs].
  - unfold Earlier.resume. simpl.
    match goal with |- wellInitialized (foldl _ ?i ?l) =>
      destruct (proceed_all post l i eq_refl) as (Hb & Hi & Hs & _) end.
    split; rewrite ?Hb, ?Hi, ?Hs; simpl; [| discriminate].
    intros _. split; [discriminate | reflexivity].
Qed.

Lemma step_well (inst : Earlier.Instance) (c : Earlier.call) :
  wellInitialized inst → wellInitialized (Earlier.step inst c).
Proof.
  intros Hw. destruct c as [w | w req]; simpl.
  - apply detectBridge_well. exact Hw.
  - unfold Earlier.postMessage, Earlier.ensureInitialized.
    destruct (Earlier.isInitialized inst) eqn:Hinit.
    + rewrite Hinit. destruct (proceed_fields req inst) as (Hn & Hi & Hs).
      destruct Hw as [Hyes Hno]. unfold wellInitialized.
      rewrite Hn, Hi, Hs. split; assumption.
    + pose proof (detectBridge_well w inst Hw) as Hw'.
      destruct (Earlier.isInitialized (Earlier.detectBridge w inst)) eqn:Hinit'.
      * destruct (proceed_fields req (Earlier.detectBridge w inst)) as (Hn & Hi & Hs).
        destruct Hw' as [Hyes Hno]. unfold wellInitialized.
        rewrite Hn, Hi, Hs. split; assumption.
      * destruct Hw' as [Hyes Hno]. split; simpl; [discriminate |].
        intros _. apply Hno. exact Hinit'.
Qed.

Lemma construct_well (w : Window) : wellInitialized (Earlier.construct w).
Proof.
  pose proof (detectBridge_well w Earlier.fresh) as H.
  unfold Earlier.construct. destruct H as [Hyes Hno].
  - split; simpl; [discriminate | reflexivity].
  - split; assumption.
Qed.

(** X21. However the earlier instance is used after its construction, its
    promise of initialization is resolved exactly when a bridge is stored in
    [nativeBridge], and then no call is left waiting. In particular the
    check [if (!this.nativeBridge) throw ...] of [ensureInitialized] never
    fires: no call of [postMessage] ends with the error "Native bridge could
    not be initialized". *)
Theorem initialization_error_unreachable (w0 w : Window) (calls : list Earlier.call)
    (req : Earlier.Request) :
  let inst := Earlier.run (Earlier.construct w0) calls in
  wellInitialized inst
  ∧ (Earlier.postMessage w req inst).2 ≠ Earlier.NotInitialized.
Proof.
  intros inst.
  assert (Hw : wellInitialized inst).
  { subst inst. generalize (construct_well w0). generalize (Earlier.construct w0).
    induction calls as [| c rest IH]; intros i Hi; [exact Hi |].
    simpl. apply IH. apply step_well. exact Hi. }
  split; [exact Hw |].
  pose proof (step_well inst (Earlier.PostMessage w req) Hw) as Hw'. simpl in Hw'.
  unfold Earlier.postMessage in *. 
  destruct (Earlier.isInitialized (Earlier.ensureInitialized w inst)) eqn:Hinit;
    [| discriminate].
  assert (Hwe : wellInitialized (Earlier.ensureInitialized w inst)).
  { unfold Earlier.ensureInitialized. destruct (Earlier.isInitialized inst);
      [exact Hw | apply detectBridge_well; exact Hw]. }
  destruct Hwe as [Hyes _]. destruct (Hyes Hinit) as [Hb _].
  unfold Earlier.proceed.
  destruct (Earlier.nativeBridge (Earlier.ensureInitialized w inst));
    [discriminate | contradiction].
Qed.

(** X22. The first detection of the bridge releases every waiting call.
    When [initialize()] finds the bridge on an instance that was not
    initialized, the instance stores that bridge, and the requests of all
    the calls of [postMessage] that were waiting are handed to it, one
    message each, in the order in which the calls were made; no call is left
    waiting. *)
Theorem detection_releases_waiting_calls (w : Window) (post : wire -> option jsval)
    (inst : Earlier.Instance) :
  Earlier.isInitialized inst = false →
  channel w = Bridge post →
  Earlier.isInitialized (Earlier.initialize w inst) = true
  ∧ Earlier.suspended (Earlier.initialize w inst) = []
  ∧ outbox (Earlier.core (Earlier.initialize w inst))
    = (outbox (Earlier.core inst) ++ map Earlier.wire_of (Earlier.suspended inst))%list
  ∧ next_promise (Earlier.core (Earlier.initialize w inst))
    = (next_promise (Earlier.core inst) + length (Earlier.suspended inst))%nat.
Proof.
  intros Hinit Hch. unfold Earlier.initialize, Earlier.detectBridge. simpl.
  rewrite Hch, Hinit. unfold Earlier.resume. simpl.
  match goal with |- context [foldl _ ?i ?l] =>
    destruct (proceed_all post l i eq_refl) as (_ & -> & -> & -> & ->) end.
  simpl. repeat split.
Qed.

(** X23. Once initialized, the earlier [postMessage] sends through the
    bridge it stored and does not look at the page again: whatever the page
    holds at the call, the request is issued at once and the stored bridge
    is handed its message. *)
Theorem stored_bridge_is_used (w w' : Window) (post : wire -> option jsval)
    (req : Earlier.Request) (inst : Earlier.Instance) :
  Earlier.isInitialized inst = true →
  Earlier.nativeBridge inst = Some post →
  Earlier.postMessage w req inst = Earlier.postMessage w' req inst
  ∧ (Earlier.postMessage w req inst).2 = Earlier.Issued (next_promise (Earlier.core inst))
  ∧ outbox (Earlier.core (Earlier.postMessage w req inst).1)
    = (outbox (Earlier.core inst) ++ [Earlier.wire_of req])%list
  ∧ Earlier.nativeBridge (Earlier.postMessage w req inst).1 = Some post.
Proof.
  intros Hinit Hb. unfold Earlier.postMessage, Earlier.ensureInitialized.
  rewrite Hinit, Hinit. unfold Earlier.proceed. rewrite Hb. simpl.
  destruct (issue_bridge_outbox post (Earlier.r_nanoid req) (Earlier.r_action req)
              (Earlier.r_data req) (Earlier.r_timeout req) (Earlier.core inst))
    as (-> & _ & ->).
  repeat split; auto.
Qed.

(** X24. A call of the earlier [postMessage] made before the bridge is on
    the page waits without any protection: it joins the waiting calls,
    creates no entry, arms no timer and sends nothing, so that its timeout
    does not run while it waits. *)
Theorem call_before_bridge_waits (w : Window) (req : Earlier.Request)
    (inst : Earlier.Instance) :
  Earlier.isInitialized inst = false →
  isReady (channel w) = false →
  (Earlier.postMessage w req inst).2 = Earlier.Suspended
  ∧ Earlier.suspended (Earlier.postMessage w req inst).1
    = (Earlier.suspended inst ++ [req])%list
  ∧ same_requests (Earlier.core inst) (Earlier.core (Earlier.postMessage w req inst).1)
  ∧ outbox (Earlier.core (Earlier.postMessage w req inst).1) = outbox (Earlier.core inst)
  ∧ Earlier.isInitialized (Earlier.postMessage w req inst).1 = false.
Proof.
  intros Hinit Hnot. unfold Earlier.postMessage, Earlier.ensureInitialized.
  rewrite Hinit. unfold Earlier.detectBridge.
  destruct (channel w) as [| | post]; [| | discriminate]; simpl; rewrite Hinit;
    repeat split.
Qed.

(** ** The two versions of [dispatch] *)

Lemma earlier_dispatch_missing_inner_channel (JSON_parse : string -> option parsed)
    (callbacks : CallbackEvent -> jsval -> awaited) (w : Window) (raw : string)
    (st : State) :
  innerChannel w = Unbound →
  acks (Earlier.dispatch JSON_parse callbacks w raw st).1 = acks st.
Proof.
  intros Hinner. unfold Earlier.dispatch, validate.
  destruct (JSON_parse raw) as [payload |]; [| reflexivity].
  assert (Hroute : ∀ st1, acks st1 = acks st →
            acks (Earlier.route callbacks w payload st1).1 = acks st).
  { intros st1 H1. unfold Earlier.route. destruct payload as [| ? | ? | ? | ? | p].
    1-5: simpl; exact H1.
    destruct (has (pendingPromises st1) (id p)).
    - simpl. unfold complete. destruct (id p); try exact H1.
      destruct (pendingPromises st1 !! s); [| exact H1].
      destruct (isSuccess p); exact H1.
    - destruct (truthy (action p) && has (eventListeners st1) (action p));
        [| destruct (printable (action p) && printable (id p)); exact H1].
      unfold Earlier.deliver. rewrite Hinner. simpl.
      rewrite notify_all_unbound. exact H1. }
  destruct (negb (truthy_parsed payload) || negb (is_string (member_opt id payload))).
  - destruct (has (pendingPromises _) (member_opt id payload)).
    + apply Hroute. unfold rejectPendingPromise.
      destruct (member_opt id payload); try reflexivity.
      simpl. destruct (pendingPromises st !! s); reflexivity.
    + destruct (truthy _ && has _ _); [apply Hroute |]; reflexivity.
  - apply Hroute. reflexivity.
Qed.

(** X25. The two versions of [dispatch] differ only when the inner channel
    is missing at the call. When [window] has an object under the inner
    channel's name at that moment, the newer [dispatch] does not wait and
    does, on every message, exactly what the earlier one does: the same
    settlements, the same callbacks called, the same acknowledgements, the
    same console, the same way of ending. When it has none, neither version
    sends an acknowledgement. *)
Theorem dispatch_versions_agree (JSON_parse : string -> option parsed)
    (callbacks : CallbackEvent -> jsval -> awaited) (fuel : nat) (w : nat -> Window)
    (raw : string) (st : State) :
  (missing (innerChannel (w 0%nat)) = false →
   dispatch JSON_parse callbacks fuel w raw st
   = Earlier.dispatch JSON_parse callbacks (w 0%nat) raw st)
  ∧ (missing (innerChannel (w 0%nat)) = true →
     acks (dispatch JSON_parse callbacks fuel w raw st).1 = acks st
     ∧ acks (Earlier.dispatch JSON_parse callbacks (w 0%nat) raw st).1 = acks st).
Proof.
  split.
  - intros Hpresent. unfold dispatch, Earlier.dispatch.
    destruct (validate JSON_parse raw _) as [st1 | payload st1]; [reflexivity |].
    unfold route, Earlier.route.
    destruct payload as [| ? | ? | ? | ? | p]; try reflexivity.
    destruct (has (pendingPromises st1) (id p)); [reflexivity |].
    destruct (truthy (action p) && has (eventListeners st1) (action p)); [| reflexivity].
    unfold deliver, Earlier.deliver. rewrite Hpresent. reflexivity.
  - intros Hmissing.
    assert (Hinner : innerChannel (w 0%nat) = Unbound)
      by (destruct (innerChannel (w 0%nat)); try discriminate; reflexivity).
    split.
    + apply dispatch_missing_inner_channel. exact Hinner.
    + apply earlier_dispatch_missing_inner_channel. exact Hinner.
Qed.

(** ** These theorems at concrete inputs *)

Module Instances.

Import Sample.

Lemma request_response_round_trip_witness :
  ∃ st1,
    postMessage 0 ready "X" "getUser" JUndefined 15000 initial = Some (0%nat, st1)
    ∧ settled (dispatch parse handlers 0 ready (raw_ok "X" 1) st1).1
      = [(0%nat, Resolved (JNum 1))].
Proof.
  assert (Hok : success_as_specified (ok "X" 1))
    by (left; exists 200%Z; split; [reflexivity | lia]).
  destruct (request_response_round_trip parse handlers 0 ready ready (fun _ => None)
              "X" "getUser" JUndefined 15000 (raw_ok "X" 1) (ok "X" 1) initial
              eq_refl eq_refl eq_refl eq_refl Hok)
    as (st1 & Hpost & _ & _ & _ & Hset & _).
  exists st1. split; [exact Hpost | exact Hset].
Defined.

Lemma send_failure_cleans_up_witness :
  ∃ st1,
    postMessage 0 faulty_channel "X" "getUser" JUndefined 15000 initial = Some (0%nat, st1)
    ∧ settled st1 = [(0%nat, Rejected (SendError (HostError (JStr "closed"))))]
    ∧ pendingPromises st1 = delete "X" (pendingPromises initial).
Proof.
  destruct (send_failure_cleans_up 0 faulty_channel (fun _ => Some (JStr "closed"))
              (JStr "closed") "X" "getUser" JUndefined 15000 initial eq_refl eq_refl)
    as (st1 & Hpost & Hset & Hpend & _).
  exists st1. split; [exact Hpost |]. split; [exact Hset | exact Hpend].
Defined.

Lemma unready_channel_rejects_witness :
  ∃ result,
    postMessage 3 late_channel "X" "getUser" JUndefined 15000 initial = Some result
    ∧ outbox result.2 = outbox initial
    ∧ pendingPromises result.2 !! "X" = None.
Proof.
  destruct (postMessage 3 late_channel "X" "getUser" JUndefined 15000 initial)
    as [result |] eqn:Hpost; [| vm_compute in Hpost; discriminate].
  exists result. split; [reflexivity |].
  destruct (unready_channel_rejects 3 late_channel "X" "getUser" JUndefined 15000 initial
              result eq_refl Hpost) as (_ & _ & Hout & Hpend & _).
  split; [exact Hout | exact Hpend].
Defined.

Lemma missing_channel_waits_forever_witness :
  postMessage 1000 never "X" "getUser" JUndefined 15000 initial = None.
Proof.
  apply (missing_channel_waits_forever 1000 never "X" "getUser" JUndefined 15000 initial
           eq_refl (fun _ => eq_refl)).
Defined.

Lemma dispatch_throws_only_in_warning_witness :
  (dispatch parse_more handlers 0 ready raw_object_action one_pending).2
  = Throws (TypeError "Cannot convert object to primitive value").
Proof.
  apply (dispatch_throws_only_in_warning parse_more handlers 0 ready raw_object_action
           one_pending (TypeError "Cannot convert object to primitive value")).
  split; [reflexivity |]. exists object_action. repeat split.
Defined.

Lemma unroutable_message_dropped_witness :
  (dispatch parse_more handlers 0 ready raw_unknown listening_pending).2 = Returns
  ∧ same_requests listening_pending
      (dispatch parse_more handlers 0 ready raw_unknown listening_pending).1.
Proof.
  destruct (unroutable_message_dropped parse_more handlers 0 ready raw_unknown
              (Envelope unknown) listening_pending eq_refl eq_refl eq_refl)
    as (Hsame & _ & _ & _ & _ & Hret & _).
  split; [apply (Hret eq_refl) | exact Hsame].
Defined.

Lemma empty_action_never_delivered_witness :
  invoked (dispatch parse_more handlers 0 ready raw_empty_action
             (listenMessage EmptyString 1%nat initial).1).1
  = invoked initial.
Proof.
  apply (empty_action_never_delivered parse_more handlers 0 ready raw_empty_action
           empty_action 1%nat initial eq_refl eq_refl eq_refl).
Defined.

Lemma response_before_event_witness :
  invoked (dispatch parse_more handlers 0 ready raw_login_response listening_pending).1
  = invoked listening_pending.
Proof.
  apply (response_before_event parse_more handlers 0 ready raw_login_response
           login_response "X" (mkPending 0 0) listening_pending eq_refl eq_refl eq_refl).
Defined.

Lemma late_response_ignored_witness :
  same_requests (fireTimer 0 one_pending)
    (dispatch parse handlers 0 ready (raw_ok "X" 1) (fireTimer 0 one_pending)).1.
Proof.
  apply (late_response_ignored parse handlers 0 ready (raw_ok "X" 1) (ok "X" 1) "X"
           (mkPending 0 0) (mkTask "X" "getUser" 15000 0) one_pending
           eq_refl eq_refl eq_refl eq_refl eq_refl).
Defined.

Lemma answered_request_settled_once_witness :
  fireTimer 0 (dispatch parse handlers 0 ready (raw_ok "X" 1) one_pending).1
  = (dispatch parse handlers 0 ready (raw_ok "X" 1) one_pending).1.
Proof.
  apply (answered_request_settled_once parse handlers 0 ready ready (raw_ok "X" 1)
           (ok "X" 1) "X" (mkPending 0 0) one_pending eq_refl eq_refl eq_refl).
Defined.

Lemma failed_acknowledgement_attempts_witness :
  acks (dispatch parse handlers 0 faulty_inner raw_event listening).1
  = (acks listening ++
     [[("action", JStr "login"); ("data", JNum 14); ("id", JStr "e1"); ("code", JNum 200)];
      [("action", JStr "login"); ("id", JStr "e1"); ("code", JNum 500)]])%list.
Proof.
  assert (Hne : "login" ≠ EmptyString) by discriminate.
  assert (Hthrows : ∀ m : wire, (fun _ : wire => Some (JStr "closed")) m ≠ None)
    by discriminate.
  destruct (failed_acknowledgement_attempts parse handlers 0 faulty_inner raw_event
              login_event "login" [1%nat] (fun _ => Some (JStr "closed")) listening
              eq_refl eq_refl Hne eq_refl eq_refl eq_refl Hthrows)
    as (_ & _ & Hack & _).
  exact (Hack 1%nat (JNum 14) eq_refl eq_refl).
Defined.

Lemma unready_inner_channel_sends_nothing_witness :
  acks (dispatch parse handlers 3 broken_inner raw_event listening).1 = acks listening.
Proof.
  assert (Hne : "login" ≠ EmptyString) by discriminate.
  apply (unready_inner_channel_sends_nothing parse handlers 3 broken_inner raw_event
           login_event "login" [1%nat] listening
           eq_refl eq_refl Hne eq_refl eq_refl eq_refl).
Defined.

Lemma register_cancel_round_trip_witness :
  eventListeners ((listenMessage "login" 1%nat one_pending).2
                    (listenMessage "login" 1%nat one_pending).1)
  = eventListeners one_pending.
Proof.
  apply (register_cancel_round_trip "login" 1%nat one_pending eq_refl).
Defined.

Lemma timers_match_pending_witness :
  pendingPromises (run parse handlers 0 initial
            [PostMessage ready "X" "getUser" JUndefined 15000;
             PostMessage ready "Y" "getTeam" JUndefined 15000;
             Dispatch ready (raw_ok "X" 1)]) !! "Y"
  = Some (mkPending 1 1).
Proof.
  assert (Hnd : NoDup (drawn [PostMessage ready "X" "getUser" JUndefined 15000;
                              PostMessage ready "Y" "getTeam" JUndefined 15000;
                              Dispatch ready (raw_ok "X" 1)])).
  { simpl. apply NoDup_cons. split; [| apply NoDup_singleton].
    intros Hin. apply list_elem_of_singleton in Hin. discriminate. }
  destruct (timers_match_pending parse handlers 0 _ Hnd) as (Htimer & _).
  apply (Htimer 1%nat (mkTask "Y" "getTeam" 15000 1)). vm_compute. reflexivity.
Defined.

Lemma detection_releases_waiting_calls_witness :
  Earlier.suspended queued = [first_request; second_request]
  ∧ Earlier.suspended (Earlier.initialize full_page queued) = []
  ∧ outbox (Earlier.core (Earlier.initialize full_page queued))
    = (outbox (Earlier.core queued)
       ++ map Earlier.wire_of (Earlier.suspended queued))%list.
Proof.
  split; [reflexivity |].
  destruct (detection_releases_waiting_calls full_page (fun _ => None) queued
              eq_refl eq_refl) as (_ & Hs & Hout & _).
  split; [exact Hs | exact Hout].
Defined.

Lemma stored_bridge_is_used_witness :
  Earlier.postMessage empty_page first_request (Earlier.construct full_page)
  = Earlier.postMessage full_page first_request (Earlier.construct full_page).
Proof.
  apply (stored_bridge_is_used empty_page full_page (fun _ => None) first_request
           (Earlier.construct full_page) eq_refl eq_refl).
Defined.

Lemma call_before_bridge_waits_witness :
  (Earlier.postMessage empty_page first_request (Earlier.construct empty_page)).2
  = Earlier.Suspended.
Proof.
  apply (call_before_bridge_waits empty_page first_request (Earlier.construct empty_page)
           eq_refl eq_refl).
Defined.

Lemma dispatch_versions_agree_witness :
  dispatch parse handlers 3 broken_inner raw_event listening
  = Earlier.dispatch parse handlers (broken_inner 0) raw_event listening.
Proof.
  apply (dispatch_versions_agree parse handlers 3 broken_inner raw_event listening).
  reflexivity.
Defined.

End Instances.
